(** * radio_beam: elliptical Gaussian beams, their convolution, header parsing
    and kernels

    A shallow embedding of [radio_beam/beam.py] and [radio_beam/utils.py].

    Numbers.  Python floats are read as real numbers ([R]): the arithmetic of
    the source is the arithmetic of its formulas, rounding is not modelled.
    Comparisons of reals are decided by [Rlt_dec] and [Req_dec_T].

    Units.  An [astropy.units.Quantity] is a magnitude with a unit.  The units
    the source names are angular ([u.deg], [u.radian], [u.arcmin], [u.arcsec])
    and their powers ([u.sr] is [radian ** 2]); a quantity is indexed by the
    power of angle it carries, so adding an angle to a solid angle is not
    typable, the way astropy refuses it at run time.  Binary operations follow
    astropy: the right operand is converted to the unit of the left one and
    the result carries the unit of the left one.

    Exceptions.  A function that may raise returns a [result]; an exception is
    its Python class with its message.

    Doubles.  Where a question turns on rounding, the sums of [convolve] and
    [deconvolve] are read a second time on IEEE binary64 numbers
    ([PrimFloat]), in the module [Binary64]. *)

From Stdlib Require Import Reals Lra Lia ZArith QArith Qreals.
From Stdlib Require Import String Ascii List Bool.
From Stdlib Require Floats.
Import ListNotations.
Open Scope R_scope.

Set Implicit Arguments.

(** ** Exceptions and results *)

Inductive exn : Type :=
| TypeError (msg : string)
| ValueError (msg : string)
| IndexError (msg : string)
| KeyError (msg : string)
| ZeroDivisionError (msg : string)
| IOError (msg : string).

(** The Python class of an exception: what an [except] clause selects on. *)
Inductive exn_class : Type :=
| TypeError_class | ValueError_class | IndexError_class | KeyError_class
| ZeroDivisionError_class | IOError_class.

Definition class_of (e : exn) : exn_class :=
  match e with
  | TypeError _ => TypeError_class
  | ValueError _ => ValueError_class
  | IndexError _ => IndexError_class
  | KeyError _ => KeyError_class
  | ZeroDivisionError _ => ZeroDivisionError_class
  | IOError _ => IOError_class
  end.

Definition message_of (e : exn) : string :=
  match e with
  | TypeError m | ValueError m | IndexError m | KeyError m | ZeroDivisionError m
  | IOError m => m
  end.

Inductive result (A : Type) : Type :=
| Ok (a : A)
| Raise (e : exn).

Arguments Ok {A} a.
Arguments Raise {A} e.

Definition bind {A B : Type} (r : result A) (k : A -> result B) : result B :=
  match r with
  | Ok a => k a
  | Raise e => Raise e
  end.

Notation "x <- r ;; k" := (bind r (fun x => k))
  (at level 61, r at next level, right associativity).

(** The class of the exception a call ended with, if it raised. *)
Definition raised_class {A : Type} (r : result A) : option exn_class :=
  match r with
  | Ok _ => None
  | Raise e => Some (class_of e)
  end.

(** ** Real comparisons as booleans *)

Definition Rltb (x y : R) : bool := if Rlt_dec x y then true else false.
Definition Reqb (x y : R) : bool := if Req_dec_T x y then true else false.

(** ** Angular units and quantities *)

Inductive AngleUnit : Type := deg | radian | arcmin | arcsec.

(** Radians per unit: astropy defines [deg = pi/180 rad], [arcmin = deg/60],
    [arcsec = deg/3600]. *)
Definition in_radians (u : AngleUnit) : R :=
  match u with
  | radian => 1
  | deg => PI / 180
  | arcmin => PI / 180 / 60
  | arcsec => PI / 180 / 3600
  end.

(** A quantity whose unit is [unit ** n]. *)
Record Quantity (n : nat) : Type := mkQ { value : R; unit : AngleUnit }.

Arguments mkQ n value unit : clear implicits.

(** [q.to(u ** n).value] *)
Definition to_value {n : nat} (u : AngleUnit) (q : Quantity n) : R :=
  value q * (in_radians (unit q) / in_radians u) ^ n.

Definition qadd {n : nat} (a b : Quantity n) : Quantity n :=
  mkQ n (value a + to_value (unit a) b) (unit a).

Definition qsub {n : nat} (a b : Quantity n) : Quantity n :=
  mkQ n (value a - to_value (unit a) b) (unit a).

(** [c * q] and [q * c] for a plain number [c]. *)
Definition qscale {n : nat} (c : R) (q : Quantity n) : Quantity n :=
  mkQ n (c * value q) (unit q).

Definition qtimes {n : nat} (q : Quantity n) (c : R) : Quantity n :=
  mkQ n (value q * c) (unit q).

(** [q ** 2] *)
Definition qsqr {n : nat} (q : Quantity n) : Quantity (n + n) :=
  mkQ (n + n) (value q ^ 2) (unit q).

(** [np.sqrt(q)] *)
Definition qsqrt (n : nat) (q : Quantity (n + n)) : Quantity n :=
  mkQ n (sqrt (value q)) (unit q).

(** [abs(q)] *)
Definition qabs {n : nat} (q : Quantity n) : Quantity n :=
  mkQ n (Rabs (value q)) (unit q).

(** [q < 0], [q == 0], [a < b], [a == b] *)
Definition qlt0 {n : nat} (q : Quantity n) : bool := Rltb (value q) 0.
Definition qeq0 {n : nat} (q : Quantity n) : bool := Reqb (value q) 0.
Definition qlt {n : nat} (a b : Quantity n) : bool := Rltb (value a) (to_value (unit a) b).
Definition qeq {n : nat} (a b : Quantity n) : bool := Reqb (value a) (to_value (unit a) b).

(** [np.cos(q)], [np.sin(q)] of an angle: astropy converts to radians. *)
Definition qcos (q : Quantity 1) : R := cos (to_value radian q).
Definition qsin (q : Quantity 1) : R := sin (to_value radian q).

(** The two-argument arctangent on numbers, as [np.arctan2(y, x)]. *)
Definition atan2 (y x : R) : R :=
  if Rlt_dec 0 x then atan (y / x)
  else if Rlt_dec x 0 then
    (if Rle_dec 0 y then atan (y / x) + PI else atan (y / x) - PI)
  else if Rlt_dec 0 y then PI / 2
  else if Rlt_dec y 0 then - (PI / 2)
  else 0.

(** [np.arctan2(a, b)] on quantities: an angle in radians. *)
Definition arctan2 {n : nat} (a b : Quantity n) : Quantity 1 :=
  mkQ 1 (atan2 (value a) (to_value (unit a) b)) radian.

Declare Scope qty_scope.
Delimit Scope qty_scope with qty.
Infix "+" := qadd : qty_scope.
Infix "-" := qsub : qty_scope.
Infix "*:" := qtimes (at level 40, left associativity) : qty_scope.
Infix ":*" := qscale (at level 40, left associativity) : qty_scope.

(** ** The beam *)

(** Conversion between a 2-D Gaussian FWHM**2 and effective area. *)
Definition FWHM_TO_AREA : R := 2 * PI / (8 * ln 2).
Definition SIGMA_TO_FWHM : R := sqrt (8 * ln 2).

(** [_to_area(major, minor)]: [(major * minor * FWHM_TO_AREA).to(u.sr)]. *)
Definition _to_area (major minor : Quantity 1) : Quantity 2 :=
  mkQ 2 (value major * value minor * FWHM_TO_AREA
         * (in_radians (unit major) * in_radians (unit minor))) radian.

(** An argument of the constructor: a plain number or an angle. *)
Inductive pyval : Type :=
| PyNum (x : R)
| PyQuantity (q : Quantity 1).

(** [v if u.deg.is_equivalent(v) else v * u.deg]: an angle is equivalent to
    degrees and is kept, a plain number is not and is taken to be in degrees
    (the warning this comes with is not modelled). *)
Definition assume_deg (v : pyval) : Quantity 1 :=
  match v with
  | PyQuantity q => q
  | PyNum x => mkQ 1 x deg
  end.

(** A beam holds its three angles; the value of the [Quantity] it extends is
    [_to_area(major, minor).value], which [sr] recomputes. *)
Record Beam : Type := mkBeam { major : Quantity 1; minor : Quantity 1; pa : Quantity 1 }.

(** [Beam.__new__(cls, major, minor, pa, area)]; [None] is an omitted
    argument.  [area] is a plain number here.  With no major axis the product
    in [_to_area] is one of [None], which Python refuses. *)
Definition Beam_new (major minor pa : option pyval) (area : option R) : result Beam :=
  let '(major, minor, pa) :=
    match area with
    | Some area =>
        let rad := mkQ 1 (sqrt (area / (2 * PI))) deg in
        (Some (PyQuantity (rad *: SIGMA_TO_FWHM)%qty),
         Some (PyQuantity (rad *: SIGMA_TO_FWHM)%qty),
         Some (PyQuantity (mkQ 1 0 deg)))
    | None => (major, minor, pa)
    end in
  let major := option_map assume_deg major in
  let minor := option_map assume_deg minor in
  let pa :=
    match pa with
    | Some pa => assume_deg pa
    | None => mkQ 1 0 deg
    end in
  let minor :=
    match minor with
    | None => major
    | Some _ => minor
    end in
  match major, minor with
  | Some major, Some minor => Ok (mkBeam major minor pa)
  | _, _ => Raise (TypeError "unsupported operand type(s) for *: NoneType")
  end.

(** [Beam.sr] *)
Definition sr (self : Beam) : Quantity 2 := _to_area (major self) (minor self).

(** [Beam.__eq__] *)
Definition Beam_eq (self other : Beam) : bool :=
  if qeq (major self) (major other) && qeq (minor self) (minor other)
     && qeq (pa self) (pa other)
  then true else false.

(** [Beam.convolve] *)
Definition convolve (self other : Beam) : result Beam :=
  let alpha := (qsqr (major self *: qcos (pa self)) +
                qsqr (minor self *: qsin (pa self)) +
                qsqr (major other *: qcos (pa other)) +
                qsqr (minor other *: qsin (pa other)))%qty in
  let beta := (qsqr (major self *: qsin (pa self)) +
               qsqr (minor self *: qcos (pa self)) +
               qsqr (major other *: qsin (pa other)) +
               qsqr (minor other *: qcos (pa other)))%qty in
  let gamma := (2 :* ((qsqr (minor self) - qsqr (major self)) *:
                        qsin (pa self) *: qcos (pa self) +
                      (qsqr (minor other) - qsqr (major other)) *:
                        qsin (pa other) *: qcos (pa other)))%qty in
  let s := (alpha + beta)%qty in
  let t := qsqrt 2 (qsqr (alpha - beta) + qsqr gamma)%qty in
  let new_major := qsqrt 1 (0.5 :* (s + t))%qty in
  let new_minor := qsqrt 1 (0.5 :* (s - t))%qty in
  let new_pa :=
    if qeq0 (qabs gamma + qabs (alpha - beta))%qty
    then mkQ 1 0.0 deg
    else (0.5 :* arctan2 ((-1) :* gamma) (alpha - beta))%qty in
  Beam_new (Some (PyQuantity new_major))
           (Some (PyQuantity new_minor))
           (Some (PyQuantity new_pa)) None.

(** [np.min] of the four axes in [deconvolve]. *)
Definition min4 (a b c d : R) : R := Rmin (Rmin a b) (Rmin c d).

(** [Beam.deconvolve] *)
Definition deconvolve (self other : Beam) (failure_returns_pointlike : bool) : result Beam :=
  let maj1 := major self in
  let min1 := minor self in
  let pa1 := pa self in
  let maj2 := major other in
  let min2 := minor other in
  let pa2 := pa other in
  let alpha := (qsqr (maj1 *: qcos pa1) +
                qsqr (min1 *: qsin pa1) -
                qsqr (maj2 *: qcos pa2) -
                qsqr (min2 *: qsin pa2))%qty in
  let beta := (qsqr (maj1 *: qsin pa1) +
               qsqr (min1 *: qcos pa1) -
               qsqr (maj2 *: qsin pa2) -
               qsqr (min2 *: qcos pa2))%qty in
  let gamma := (2 :* ((qsqr min1 - qsqr maj1) *: qsin pa1 *: qcos pa1 -
                      (qsqr min2 - qsqr maj2) *: qsin pa2 *: qcos pa2))%qty in
  let s := (alpha + beta)%qty in
  let t := qsqrt 2 (qsqr (alpha - beta) + qsqr gamma)%qty in
  (* identify the smallest resolution: computed and never used *)
  let limit := min4 (to_value deg maj1) (to_value deg min1)
                    (to_value deg maj2) (to_value deg min2) in
  let limit := 0.1 * limit * limit in
  if qlt0 alpha || qlt0 beta || qlt s t then
    if failure_returns_pointlike
    then Beam_new (Some (PyNum 0)) (Some (PyNum 0)) (Some (PyNum 0)) None
    else Raise (ValueError "Beam could not be deconvolved")
  else
    let new_major := qsqrt 1 (0.5 :* (s + t))%qty in
    let new_minor := qsqrt 1 (0.5 :* (s - t))%qty in
    let new_pa :=
      if qeq0 (qabs gamma + qabs (alpha - beta))%qty
      then PyNum 0.0
      else PyQuantity (0.5 :* arctan2 ((-1) :* gamma) (alpha - beta))%qty in
    Beam_new (Some (PyQuantity new_major))
             (Some (PyQuantity new_minor))
             (Some new_pa) None.

(** [Beam.to_header_keywords]: the three FITS keywords, in degrees. *)
Definition to_header_keywords (self : Beam) : list (string * R) :=
  [ ("BMAJ"%string, to_value deg (major self));
    ("BMIN"%string, to_value deg (minor self));
    ("BPA"%string, to_value deg (pa self)) ].

(** ** Brightness temperature *)

(** The argument of [jtok_equiv] can be anything: a plain number, or a
    quantity in any unit (angular, a frequency, a wavelength, none). *)
Inductive any_unit : Type :=
| angle_unit (u : AngleUnit)
| Hz | GHz
| metre
| dimensionless_unscaled.

Record AnyQuantity : Type := mkAny { any_value : R; any_unit_of : any_unit }.

Inductive pyarg : Type :=
| ArgNum (x : R)
| ArgQuantity (q : AnyQuantity).

(** Whether the argument carries a unit of frequency. *)
Definition has_frequency_unit (freq : pyarg) : bool :=
  match freq with
  | ArgQuantity q =>
      match any_unit_of q with
      | Hz | GHz => true
      | _ => false
      end
  | ArgNum _ => false
  end.

(** [isinstance(freq, u.quantity.Quantity)] *)
Definition is_Quantity (freq : pyarg) : bool :=
  match freq with
  | ArgQuantity _ => true
  | ArgNum _ => false
  end.

Section BrightnessTemperature.

(** [u.brightness_temperature] is astropy's: what it returns, an equivalency,
    and whether it returns or raises on the two quantities it is given are not
    this repository's. *)
Variable Equivalency : Type.
Variable brightness_temperature : Quantity 2 -> AnyQuantity -> result Equivalency.

(** [Beam.jtok_equiv] *)
Definition jtok_equiv (self : Beam) (freq : pyarg) : result Equivalency :=
  match freq with
  | ArgQuantity q => brightness_temperature (sr self) q
  | ArgNum _ =>
      Raise (TypeError
        "freq must be a Quantity object. Try 'freq*u.Hz' or another equivalent unit.")
  end.

End BrightnessTemperature.

(** The contract of astropy's [u.brightness_temperature] on the quantity it
    is given for the frequency: it returns when the quantity is a frequency
    and raises a [ValueError] when it is not. *)
Definition converts_frequencies_only {Equivalency : Type}
    (brightness_temperature : Quantity 2 -> AnyQuantity -> result Equivalency) : Prop :=
  forall beam_area q,
    if has_frequency_unit (ArgQuantity q)
    then exists equiv, brightness_temperature beam_area q = Ok equiv
    else exists msg, brightness_temperature beam_area q = Raise (ValueError msg).

(** ** Python strings *)

Open Scope string_scope.

(** [str.lower] on ASCII. *)
Definition lower_ascii (c : ascii) : ascii :=
  let n := nat_of_ascii c in
  if (65 <=? n)%nat && (n <=? 90)%nat then ascii_of_nat (n + 32) else c.

Fixpoint lower (s : string) : string :=
  match s with
  | EmptyString => EmptyString
  | String c s' => String (lower_ascii c) (lower s')
  end.

(** [s.startswith(p)] *)
Fixpoint startswith (p s : string) : bool :=
  match p, s with
  | EmptyString, _ => true
  | String a p', String b s' => Ascii.eqb a b && startswith p' s'
  | String _ _, EmptyString => false
  end.

(** [sub in s] *)
Fixpoint contains (sub s : string) : bool :=
  startswith sub s ||
  match s with
  | EmptyString => false
  | String _ s' => contains sub s'
  end.

(** [s.endswith(suffix)] *)
Fixpoint endswith (suffix s : string) : bool :=
  String.eqb suffix s ||
  match s with
  | EmptyString => false
  | String _ s' => endswith suffix s'
  end.

(** [s.endswith((suffix1, suffix2, ...))] *)
Definition endswith_any (suffixes : list string) (s : string) : bool :=
  existsb (fun suffix => endswith suffix s) suffixes.

(** The characters [str.split()] splits at: tab, newline, vertical tab, form
    feed, carriage return, the four separators 28..31 and the space. *)
Definition isspace (c : ascii) : bool :=
  let n := nat_of_ascii c in
  ((9 <=? n)%nat && (n <=? 13)%nat) || ((28 <=? n)%nat && (n <=? 32)%nat).

(** The word being read ([cur], last character first) and the rest of the line. *)
Fixpoint split_from (cur : list ascii) (s : string) : list string :=
  let flush := match cur with
               | [] => []
               | _ => [string_of_list_ascii (rev cur)]
               end in
  match s with
  | EmptyString => flush
  | String c s' =>
      if isspace c then flush ++ split_from [] s'
      else split_from (c :: cur) s'
  end.

(** [s.split()] *)
Definition split (s : string) : list string := split_from [] s.

(** *** [float(s)] on a decimal literal

    [sign? (digits [. digits?] | . digits) ((e|E) sign? digits)?], with single
    underscores between digits.  The value is kept exact, as a rational.  The
    spellings of infinity and of not-a-number have no real value and are not
    read. *)

Definition digit_of (c : ascii) : option Z :=
  let n := nat_of_ascii c in
  if (48 <=? n)%nat && (n <=? 57)%nat then Some (Z.of_nat (n - 48)) else None.

(** Reads a run of digits: the number read so far, how many digits it has,
    and what follows the run. *)
Fixpoint digits (acc : Z) (n : nat) (l : list ascii) : Z * nat * list ascii :=
  match l with
  | [] => (acc, n, [])
  | c :: l' =>
      match digit_of c with
      | Some d => digits (10 * acc + d)%Z (S n) l'
      | None =>
          if Ascii.eqb c "_" && (0 <? n)%nat then
            match l' with
            | c2 :: l'' =>
                match digit_of c2 with
                | Some d2 => digits (10 * acc + d2)%Z (S n) l''
                | None => (acc, n, l)
                end
            | [] => (acc, n, l)
            end
          else (acc, n, l)
      end
  end.

(** An optional sign: [true] for a minus. *)
Definition sign (l : list ascii) : bool * list ascii :=
  match l with
  | c :: l' =>
      if Ascii.eqb c "-" then (true, l')
      else if Ascii.eqb c "+" then (false, l')
      else (false, l)
  | [] => (false, [])
  end.

(** The exponent part, which must end the literal. *)
Definition exponent (l : list ascii) : option Z :=
  match l with
  | [] => Some 0%Z
  | c :: l' =>
      if Ascii.eqb c "e" || Ascii.eqb c "E" then
        let '(neg, l'') := sign l' in
        match digits 0 0 l'' with
        | (e, S _, []) => Some (if neg then (- e)%Z else e)
        | _ => None
        end
      else None
  end.

(** [m * 10 ** e] *)
Definition scale10 (m e : Z) : Q :=
  match e with
  | Z0 => inject_Z m
  | Zpos p => inject_Z (m * Z.pow_pos 10 p)
  | Zneg p => Qmake m (Pos.pow 10 p)
  end.

Definition float_of_chars (l : list ascii) : option Q :=
  let '(neg, l) := sign l in
  let '(m1, n1, r1) := digits 0 0 l in
  let mantissa :=
    match r1 with
    | c :: r1' =>
        if Ascii.eqb c "." then
          let '(m2, n2, r2) := digits m1 0 r1' in
          match (n1 + n2)%nat with
          | O => None
          | S _ => Some (m2, n2, r2)
          end
        else match n1 with O => None | S _ => Some (m1, O, r1) end
    | [] => match n1 with O => None | S _ => Some (m1, O, r1) end
    end in
  match mantissa with
  | Some (m, frac, r) =>
      match exponent r with
      | Some e => Some (scale10 (if neg then (- m)%Z else m) (e - Z.of_nat frac))
      | None => None
      end
  | None => None
  end.

(** [float(s)] *)
Definition py_float (s : string) : result Q :=
  match float_of_chars (list_ascii_of_string s) with
  | Some q => Ok q
  | None => Raise (ValueError "could not convert string to float")
  end.

(** ** FITS headers *)

(** A header: its keyword cards in order (keys in upper case, numeric values)
    and the lines of its HISTORY cards, in order.  A header with no HISTORY
    card has no lines. *)
Record Header : Type := mkHeader { cards : list (string * R); history : list string }.

(** [hdr['HISTORY']]: the lines of the HISTORY cards.  astropy counts the
    cards of the keyword first and raises [KeyError] when there is none. *)
Definition history_cards (hdr : Header) : result (list string) :=
  match history hdr with
  | [] => Raise (KeyError "Keyword 'HISTORY' not found.")
  | lines => Ok lines
  end.

(** [hdr[key]] when [key in hdr]: the first card of that keyword. *)
Fixpoint lookup (key : string) (cs : list (string * R)) : option R :=
  match cs with
  | [] => None
  | (k, v) :: cs' => if String.eqb k key then Some v else lookup key cs'
  end.

(** [hdr[key] = v]: the card is updated in place, or appended. *)
Fixpoint set_card (key : string) (v : R) (cs : list (string * R)) : list (string * R) :=
  match cs with
  | [] => [(key, v)]
  | (k, v') :: cs' =>
      if String.eqb k key then (key, v) :: cs' else (k, v') :: set_card key v cs'
  end.

(** [header.update(keywords)] *)
Definition update (keywords : list (string * R)) (header : Header) : Header :=
  mkHeader (fold_left (fun cs kv => set_card (fst kv) (snd kv) cs) keywords (cards header))
           (history header).

(** [Beam.attach_to_header]: the header returned (with [copy=False] it is
    the argument itself, updated). *)
Definition attach_to_header (self : Beam) (header : Header) (copy : bool) : Header :=
  update (to_header_keywords self) header.

(** The loop of [from_aips_header]: the last HISTORY line with [BMAJ] in it. *)
Definition last_BMAJ_line (lines : list string) : option string :=
  fold_left (fun aipsline line => if contains "BMAJ" line then Some line else aipsline)
            lines None.

(** [float(aipsline.split()[i])] *)
Definition float_token (aipsline : string) (i : nat) : result Q :=
  match nth_error (split aipsline) i with
  | Some tok => py_float tok
  | None => Raise (IndexError "list index out of range")
  end.

(** [Beam.from_aips_header]: [Ok None] is Python's [return None]. *)
Definition from_aips_header (hdr : Header) : result (option Beam) :=
  lines <- history_cards hdr ;;
  match last_BMAJ_line lines with
  | Some aipsline =>
      bmaj <- float_token aipsline 3 ;;
      bmin <- float_token aipsline 5 ;;
      bpa <- float_token aipsline 7 ;;
      beam <- Beam_new (Some (PyQuantity (mkQ 1 (Q2R bmaj) deg)))
                       (Some (PyQuantity (mkQ 1 (Q2R bmin) deg)))
                       (Some (PyQuantity (mkQ 1 (Q2R bpa) deg))) None ;;
      Ok (Some beam)
  | None => Ok None
  end.

(** What [from_fits_header] can be given. *)
Inductive pyobj : Type :=
| PyHeader (h : Header)
| PyStr (s : string)
| PyOther.

Definition fits_extensions : list string :=
  [".fits"; ".fits.gz"; ".fit"; ".fit.gz"; ".fits.Z"; ".fit.Z"].

Definition unrecognized_extension : exn := TypeError "Unrecognized extension.".
Definition not_a_header : exn := TypeError "Header is not a FITS header or a filename".
Definition no_BMAJ_found : exn :=
  TypeError "No BMAJ found and does not appear to be an AIPS header.".

Section FromHeader.

(** [fits.getheader(filename)]: reading the file is astropy's. *)
Variable getheader : string -> result Header.

(** [Beam.from_fits_header] *)
Definition from_fits_header (hdr : pyobj) : result Beam :=
  hdr <- match hdr with
         | PyHeader h => Ok h
         | PyStr s =>
             if endswith_any fits_extensions (lower s) then getheader s
             else Raise unrecognized_extension
         | PyOther => Raise not_a_header
         end ;;
  match lookup "BMAJ" (cards hdr) with
  | Some bmaj =>
      let major := mkQ 1 bmaj deg in
      let minor := option_map (fun v => PyQuantity (mkQ 1 v deg)) (lookup "BMIN" (cards hdr)) in
      let pa := option_map (fun v => PyQuantity (mkQ 1 v deg)) (lookup "BPA" (cards hdr)) in
      Beam_new (Some (PyQuantity major)) minor pa None
  | None =>
      aips_beam <- from_aips_header hdr ;;
      match aips_beam with
      | None => Raise no_BMAJ_found
      | Some aips_beam => Ok aips_beam
      end
  end.

End FromHeader.

Close Scope string_scope.

(** ** utils.py *)

(** [ellipse_extent(a, b, theta)]: the half-widths [(dx, dy)] of the box
    around an ellipse of semi-axes [a], [b] rotated by [theta] radians. *)
Definition ellipse_extent (a b theta : R) : R * R :=
  let t := atan2 (- b * tan theta) a in
  let dx := a * cos t * cos theta - b * sin t * sin theta in
  let t := atan2 b (a * tan theta) in
  let dy := b * sin t * cos theta + a * cos t * sin theta in
  (Rabs dx, Rabs dy).

(** ** Kernels *)

(** [math.ceil] *)
Definition ceil (x : R) : Z := (1 - up (- x))%Z.

(** astropy's [_round_up_to_odd_integer]. *)
Definition _round_up_to_odd_integer (value : R) : Z :=
  let i := ceil value in
  if (i mod 2 =? 0)%Z then (i + 1)%Z else i.

(** astropy's [Gaussian2D] model: its parameters and its value at a point. *)
Record Gaussian2D : Type := mkGaussian2D {
  amplitude : R; x_mean : R; y_mean : R; x_stddev : R; y_stddev : R; theta : R }.

Definition evaluate (m : Gaussian2D) (x y : R) : R :=
  let cost2 := cos (theta m) ^ 2 in
  let sint2 := sin (theta m) ^ 2 in
  let sin2t := sin (2 * theta m) in
  let xstd2 := x_stddev m ^ 2 in
  let ystd2 := y_stddev m ^ 2 in
  let xdiff := x - x_mean m in
  let ydiff := y - y_mean m in
  let a := 0.5 * (cost2 / xstd2 + sint2 / ystd2) in
  let b := 0.5 * (sin2t / xstd2 - sin2t / ystd2) in
  let c := 0.5 * (sint2 / xstd2 + cost2 / ystd2) in
  amplitude m * exp (- (a * xdiff ^ 2 + b * xdiff * ydiff + c * ydiff ^ 2)).

(** [array.sum()] of a two-dimensional array. *)
Definition array_sum (array : list (list R)) : R :=
  fold_right Rplus 0 (map (fold_right Rplus 0) array).

(** [np.arange(start, start + count)] *)
Definition arange (start : R) (count : Z) : list R :=
  map (fun i => start + INR i) (seq 0 (Z.to_nat count)).

(** astropy's [Kernel2D.__init__] with no keyword given: the model is
    sampled at the centre of each pixel of a [size] by [size] grid. *)
Definition discretize_center (model : Gaussian2D) (size : Z) : list (list R) :=
  let start :=
    if (size mod 2 =? 0)%Z then IZR ((- size) / 2) + 0.5
    else IZR ((- (size - 1)) / 2) in
  let x := arange start size in
  let y := arange start size in
  map (fun yj => map (fun xi => evaluate model xi yj) x) y.

Record Kernel2D : Type := mkKernel2D {
  _model : Gaussian2D; _default_size : Z; _array : list (list R); _truncation : R }.

(** [x / y] on Python floats. *)
Definition py_div (x y : R) : result R :=
  if Req_dec_T y 0 then Raise (ZeroDivisionError "float division by zero") else Ok (x / y).

Section Kernels.

(** How [Kernel2D.__init__] turns the model and the default size
    into the array: astropy's, and a matter of the keywords given (the size,
    the discretization mode, the oversampling factor). *)
Variable discretize : Gaussian2D -> Z -> list (list R).

(** [EllipticalGaussian2DKernel.__init__] on plain numbers, the way its
    docstring calls it.  The sum of the array is numpy's and [1 / sum] does not
    raise: where the sum is zero it is infinite, which has no real value, so
    the truncation is meant for a sum that is not zero. *)
Definition EllipticalGaussian2DKernel
    (stddev_maj stddev_min position_angle support_scaling : R) : result Kernel2D :=
  amplitude <- py_div 1 (2 * PI * stddev_maj * stddev_min) ;;
  let model := mkGaussian2D amplitude 0 0 stddev_maj stddev_min position_angle in
  let max_extent :=
    let '(dx, dy) := ellipse_extent stddev_maj stddev_min position_angle in
    Rmax dx dy in
  let default_size := _round_up_to_odd_integer (support_scaling * 2 * max_extent) in
  let array := discretize model default_size in
  Ok (mkKernel2D model default_size array (Rabs (1 - 1 / array_sum array))).

End Kernels.

(** *** The top-hat kernel

    [EllipticalTophat2DKernel] is a [Kernel2D] over astropy's [Ellipse2D]. *)

(** astropy's [Ellipse2D] model: its parameters [amplitude], [x_0], [y_0],
    [a], [b] and [theta], prefixed where [Gaussian2D] has the name. *)
Record Ellipse2D : Type := mkEllipse2D {
  e_amplitude : R; x_0 : R; y_0 : R; e_a : R; e_b : R; e_theta : R }.

Record TophatKernel2D : Type := mkTophatKernel2D {
  _tophat_model : Ellipse2D; _tophat_default_size : Z;
  _tophat_array : list (list R); _tophat_truncation : R }.

Section Tophat.

(** How [Kernel2D.__init__] turns the ellipse and the default size into the
    array: astropy's. *)
Variable discretize_ellipse : Ellipse2D -> Z -> list (list R).

(** [EllipticalTophat2DKernel.__init__] on plain numbers. *)
Definition EllipticalTophat2DKernel
    (stddev_maj stddev_min position_angle support_scaling : R) : result TophatKernel2D :=
  amplitude <- py_div 1 (PI * stddev_maj * stddev_min) ;;
  let model := mkEllipse2D amplitude 0 0 stddev_maj stddev_min position_angle in
  let max_extent :=
    let '(dx, dy) := ellipse_extent stddev_maj stddev_min position_angle in
    Rmax dx dy in
  let default_size := _round_up_to_odd_integer (support_scaling * 2 * max_extent) in
  Ok (mkTophatKernel2D model default_size (discretize_ellipse model default_size) 0).

(** [Beam.as_tophat_kernel(pixscale, support_scaling=...)], for a plain
    number [pixscale]: the effective axes are handed over as plain numbers
    ([.value]).  The division by [pixscale * SIGMA_TO_FWHM] is numpy's and
    does not raise: for a [pixscale] of zero the axes are infinite, which has
    no real value, so the definition is meant for a [pixscale] that is not
    zero. *)
Definition as_tophat_kernel (self : Beam) (pixscale support_scaling : R)
    : result TophatKernel2D :=
  let gauss_to_top := sqrt 2 in
  let maj_eff := gauss_to_top * to_value deg (major self) / (pixscale * SIGMA_TO_FWHM) in
  let min_eff := gauss_to_top * to_value deg (minor self) / (pixscale * SIGMA_TO_FWHM) in
  EllipticalTophat2DKernel maj_eff min_eff (to_value radian (pa self)) support_scaling.

End Tophat.

(** ** The sums of [convolve] and [deconvolve] on doubles

    The beams are given in degrees, so that no unit is converted, and the
    doubles that [np.cos] and [np.sin] return at the position angle are given
    with the beam: which double they return is the platform's.  Sums,
    products, squares and square roots are those of IEEE binary64, rounded to
    nearest. *)

Module Binary64.

Import PrimFloat.
Local Open Scope float_scope.

(** A beam given in degrees, as the sums see it: the doubles of its axes and
    the doubles [np.cos(pa)] and [np.sin(pa)] came back as. *)
Record Beam64 : Set := mkBeam64 {
  major64 : float; minor64 : float; cos_pa : float; sin_pa : float }.

(** [x ** 2] *)
Definition sqr (x : float) : float := x * x.

(** The sums of [Beam.convolve], added in the order of the source. *)
Definition convolve_sums (self other : Beam64) : float * float * float :=
  let alpha := sqr (major64 self * cos_pa self) +
               sqr (minor64 self * sin_pa self) +
               sqr (major64 other * cos_pa other) +
               sqr (minor64 other * sin_pa other) in
  let beta := sqr (major64 self * sin_pa self) +
              sqr (minor64 self * cos_pa self) +
              sqr (major64 other * sin_pa other) +
              sqr (minor64 other * cos_pa other) in
  let gamma := 2 * ((sqr (minor64 self) - sqr (major64 self)) *
                      sin_pa self * cos_pa self +
                    (sqr (minor64 other) - sqr (major64 other)) *
                      sin_pa other * cos_pa other) in
  (alpha, beta, gamma).

(** [new_major] and [new_minor] of [Beam.convolve]. *)
Definition convolve_axes (self other : Beam64) : float * float :=
  let '(alpha, beta, gamma) := convolve_sums self other in
  let s := alpha + beta in
  let t := sqrt (sqr (alpha - beta) + sqr gamma) in
  (sqrt (0.5 * (s + t)), sqrt (0.5 * (s - t))).

(** The sums of [Beam.deconvolve]. *)
Definition deconvolve_sums (self other : Beam64) : float * float * float :=
  let maj1 := major64 self in
  let min1 := minor64 self in
  let maj2 := major64 other in
  let min2 := minor64 other in
  let alpha := sqr (maj1 * cos_pa self) +
               sqr (min1 * sin_pa self) -
               sqr (maj2 * cos_pa other) -
               sqr (min2 * sin_pa other) in
  let beta := sqr (maj1 * sin_pa self) +
              sqr (min1 * cos_pa self) -
              sqr (maj2 * sin_pa other) -
              sqr (min2 * cos_pa other) in
  let gamma := 2 * ((sqr min1 - sqr maj1) * sin_pa self * cos_pa self -
                    (sqr min2 - sqr maj2) * sin_pa other * cos_pa other) in
  (alpha, beta, gamma).

(** [(alpha < 0) or (beta < 0) or (s < t)] *)
Definition deconvolve_fails (self other : Beam64) : bool :=
  let '(alpha, beta, gamma) := deconvolve_sums self other in
  let s := alpha + beta in
  let t := sqrt (sqr (alpha - beta) + sqr gamma) in
  (alpha <? 0) || (beta <? 0) || (s <? t).

(** [a.major == b.major and a.minor == b.minor] on two pairs of axes. *)
Definition same_axes (a b : float * float) : bool :=
  (fst a =? fst b) && (snd a =? snd b).

(** The doubles at most [k] places away from [x], [x] among them. *)
Fixpoint above (k : nat) (x : float) : list float :=
  match k with
  | O => []
  | S k' => next_up x :: above k' (next_up x)
  end.

Fixpoint below (k : nat) (x : float) : list float :=
  match k with
  | O => []
  | S k' => next_down x :: below k' (next_down x)
  end.

Definition nearby (k : nat) (x : float) : list float := below k x ++ x :: above k x.

(** The doubles nearest to the cosine and the sine of 45, 20 and 40 degrees. *)
Definition cos_45 : float := 0x1.6a09e667f3bcdp-1.
Definition sin_45 : float := 0x1.6a09e667f3bccp-1.
Definition cos_20 : float := 0x1.e11f642522d1cp-1.
Definition sin_20 : float := 0x1.5e3a8748a0bf5p-2.
Definition cos_40 : float := 0x1.8836fa2cf5039p-1.
Definition sin_40 : float := 0x1.491b7523c161cp-1.

(** [Beam(1, 1, 0)], [Beam(2, 2, 0)] and [Beam(8, 1, 0)]: the cosine of 0 is
    1 and its sine 0. *)
Definition Beam_1_1_0 : Beam64 := mkBeam64 1 1 1 0.
Definition Beam_2_2_0 : Beam64 := mkBeam64 2 2 1 0.
Definition Beam_8_1_0 : Beam64 := mkBeam64 8 1 1 0.

(** [Beam(3, 1, pa)], [Beam(9, 3, pa)] and [Beam(10, 1, pa)], given the
    cosine and the sine of [pa]. *)
Definition Beam_3_1 (c s : float) : Beam64 := mkBeam64 3 1 c s.
Definition Beam_9_3 (c s : float) : Beam64 := mkBeam64 9 3 c s.
Definition Beam_10_1 (c s : float) : Beam64 := mkBeam64 10 1 c s.

End Binary64.

(** ** The specification's formulas

    The axes of a beam in degrees and its position angle in radians, and the
    formulas of the specification written on these numbers. *)

Definition major_deg (b : Beam) : R := to_value deg (major b).
Definition minor_deg (b : Beam) : R := to_value deg (minor b).
Definition pa_rad (b : Beam) : R := to_value radian (pa b).

Definition spec_conv_alpha (A B : Beam) : R :=
  (major_deg A * cos (pa_rad A)) ^ 2 + (minor_deg A * sin (pa_rad A)) ^ 2 +
  (major_deg B * cos (pa_rad B)) ^ 2 + (minor_deg B * sin (pa_rad B)) ^ 2.

Definition spec_conv_beta (A B : Beam) : R :=
  (major_deg A * sin (pa_rad A)) ^ 2 + (minor_deg A * cos (pa_rad A)) ^ 2 +
  (major_deg B * sin (pa_rad B)) ^ 2 + (minor_deg B * cos (pa_rad B)) ^ 2.

Definition spec_conv_gamma (A B : Beam) : R :=
  2 * ((minor_deg A ^ 2 - major_deg A ^ 2) * sin (pa_rad A) * cos (pa_rad A) +
       (minor_deg B ^ 2 - major_deg B ^ 2) * sin (pa_rad B) * cos (pa_rad B)).

Definition spec_deconv_alpha (A B : Beam) : R :=
  (major_deg A * cos (pa_rad A)) ^ 2 + (minor_deg A * sin (pa_rad A)) ^ 2 -
  (major_deg B * cos (pa_rad B)) ^ 2 - (minor_deg B * sin (pa_rad B)) ^ 2.

Definition spec_deconv_beta (A B : Beam) : R :=
  (major_deg A * sin (pa_rad A)) ^ 2 + (minor_deg A * cos (pa_rad A)) ^ 2 -
  (major_deg B * sin (pa_rad B)) ^ 2 - (minor_deg B * cos (pa_rad B)) ^ 2.

Definition spec_deconv_gamma (A B : Beam) : R :=
  2 * ((minor_deg A ^ 2 - major_deg A ^ 2) * sin (pa_rad A) * cos (pa_rad A) -
       (minor_deg B ^ 2 - major_deg B ^ 2) * sin (pa_rad B) * cos (pa_rad B)).

Definition spec_s (alpha beta : R) : R := alpha + beta.

Definition spec_t (alpha beta gamma : R) : R := sqrt ((alpha - beta) ^ 2 + gamma ^ 2).

Definition spec_new_major (alpha beta gamma : R) : R :=
  sqrt (0.5 * (spec_s alpha beta + spec_t alpha beta gamma)).

Definition spec_new_minor (alpha beta gamma : R) : R :=
  sqrt (0.5 * (spec_s alpha beta - spec_t alpha beta gamma)).

Definition spec_new_pa (alpha beta gamma : R) : R :=
  if Req_dec_T (Rabs gamma + Rabs (alpha - beta)) 0 then 0
  else 0.5 * atan2 (- gamma) (alpha - beta).

(** The unit the new position angle is in: [0.0 * u.deg] in the degenerate
    case, the radians of [np.arctan2] otherwise. *)
Definition spec_new_pa_unit (alpha beta gamma : R) : AngleUnit :=
  if Req_dec_T (Rabs gamma + Rabs (alpha - beta)) 0 then deg else radian.

(** The feasibility check of the specification. *)
Definition spec_infeasible (A B : Beam) : Prop :=
  let alpha := spec_deconv_alpha A B in
  let beta := spec_deconv_beta A B in
  let gamma := spec_deconv_gamma A B in
  alpha < 0 \/ beta < 0 \/ spec_s alpha beta < spec_t alpha beta gamma.

(** The truncation as the specification words it. *)
Definition spec_truncation (array : list (list R)) : R := Rabs (1 - array_sum array).

(** ** Values the scenarios name *)

(** [Beam(major=x, minor=y, pa=z)] on plain numbers: degrees are assumed. *)
Definition Beam_of_numbers (x y z : R) : Beam := mkBeam (mkQ 1 x deg) (mkQ 1 y deg) (mkQ 1 z deg).

Definition zero_beam : Beam := Beam_of_numbers 0 0 0.

Definition could_not_be_deconvolved : exn := ValueError "Beam could not be deconvolved".

Definition freq_must_be_a_Quantity : exn :=
  TypeError "freq must be a Quantity object. Try 'freq*u.Hz' or another equivalent unit.".

(** A header with no card and no HISTORY. *)
Definition empty_header : Header := mkHeader [] [].

(** A header with no card whose only HISTORY line does not mention a beam. *)
Definition beamless_header : Header := mkHeader [] ["no beam here"%string].

(** A stand-in for astropy's [u.brightness_temperature], for the closed
    examples: it returns its two arguments when the second is a frequency and
    raises the [ValueError] of astropy otherwise. *)
Definition brightness_temperature_of (beam_area : Quantity 2) (q : AnyQuantity)
    : result (Quantity 2 * AnyQuantity) :=
  if has_frequency_unit (ArgQuantity q) then Ok (beam_area, q)
  else Raise (ValueError
         "The inputs to `brightness_temperature` are frequency and angular area.").

(** The AIPS line of the source's comment, as the HISTORY card holds it. *)
Definition aips_line : string :=
  "AIPS   CLEAN BMAJ=  1.7599E-03 BMIN=  1.5740E-03 BPA=   2.61".

(** The line of the specification's scenario, letter for letter. *)
Definition dotted_line : string :=
  "... BMAJ=  1.7599E-03 BMIN=  1.5740E-03 BPA=   2.61".

(** A file reader for the closed examples: no file is ever found. *)
Definition no_file (filename : string) : result Header := Raise (IOError "No such file").

(** The FWHM the constructor gives a beam of area [a]. *)
Definition area_fwhm (a : R) : R := sqrt (a / (2 * PI)) * SIGMA_TO_FWHM.

(** The standard deviation, in pixels, of a circular beam one degree wide on
    pixels a hundred degrees wide. *)
Definition coarse_sigma : R := 1 / (100 * SIGMA_TO_FWHM).

(** ** The covariance of a beam

    A Gaussian beam is the quadratic form of its covariance; with the axes in
    degrees and the angle in radians its three terms are the terms the
    source adds in [convolve] and subtracts in [deconvolve]. *)

Definition cov_alpha (A : Beam) : R :=
  (major_deg A * cos (pa_rad A)) ^ 2 + (minor_deg A * sin (pa_rad A)) ^ 2.
Definition cov_beta (A : Beam) : R :=
  (major_deg A * sin (pa_rad A)) ^ 2 + (minor_deg A * cos (pa_rad A)) ^ 2.
Definition cov_gamma (A : Beam) : R :=
  2 * ((minor_deg A ^ 2 - major_deg A ^ 2) * sin (pa_rad A) * cos (pa_rad A)).

(** * Proofs *)

(** ** The algebra of quantities

    Converting to a unit [u] commutes with every operation, so a computation
    on quantities can be read on the magnitudes in one unit. *)

Lemma in_radians_pos (u : AngleUnit) : 0 < in_radians u.
Proof. pose proof PI_RGT_0. destruct u; simpl; lra. Qed.

Lemma ratio_pos (u v : AngleUnit) : 0 < in_radians u / in_radians v.
Proof. apply Rdiv_lt_0_compat; apply in_radians_pos. Qed.

Lemma ratio_pow_pos (u v : AngleUnit) (n : nat) : 0 < (in_radians u / in_radians v) ^ n.
Proof. apply pow_lt, ratio_pos. Qed.

Lemma ratio_chain (u v w : AngleUnit) (n : nat) :
  (in_radians u / in_radians v) ^ n * (in_radians v / in_radians w) ^ n
  = (in_radians u / in_radians w) ^ n.
Proof.
  rewrite <- Rpow_mult_distr. f_equal.
  pose proof (in_radians_pos v). pose proof (in_radians_pos w). field. lra.
Qed.

Lemma to_value_to n u v (q : Quantity n) : to_value u (mkQ n (to_value v q) v) = to_value u q.
Proof. unfold to_value; simpl. rewrite Rmult_assoc, ratio_chain. reflexivity. Qed.

Lemma to_value_self n (q : Quantity n) : to_value (unit q) q = value q.
Proof.
  unfold to_value. replace (in_radians (unit q) / in_radians (unit q)) with 1.
  - rewrite pow1. ring.
  - pose proof (in_radians_pos (unit q)). field. lra.
Qed.

Lemma to_value_qadd n u (a b : Quantity n) :
  to_value u (qadd a b) = to_value u a + to_value u b.
Proof.
  unfold qadd. unfold to_value at 1. simpl.
  rewrite Rmult_plus_distr_r. f_equal.
  unfold to_value. rewrite Rmult_assoc, ratio_chain. reflexivity.
Qed.

Lemma to_value_qsub n u (a b : Quantity n) :
  to_value u (qsub a b) = to_value u a - to_value u b.
Proof.
  unfold qsub. unfold to_value at 1. simpl.
  unfold Rminus. rewrite Rmult_plus_distr_r. f_equal.
  unfold to_value. rewrite Ropp_mult_distr_l_reverse, Rmult_assoc, ratio_chain. reflexivity.
Qed.

Lemma to_value_qscale n u c (q : Quantity n) : to_value u (qscale c q) = c * to_value u q.
Proof. unfold to_value, qscale; simpl. ring. Qed.

Lemma to_value_qtimes n u c (q : Quantity n) : to_value u (qtimes q c) = to_value u q * c.
Proof. unfold to_value, qtimes; simpl. ring. Qed.

Lemma to_value_qsqr n u (q : Quantity n) : to_value u (qsqr q) = to_value u q ^ 2.
Proof.
  unfold to_value, qsqr; simpl. rewrite pow_add. ring.
Qed.

Lemma to_value_qabs n u (q : Quantity n) : to_value u (qabs q) = Rabs (to_value u q).
Proof.
  unfold to_value, qabs; simpl. rewrite Rabs_mult.
  rewrite (Rabs_pos_eq (_ ^ n)); [reflexivity | left; apply ratio_pow_pos].
Qed.

Lemma to_value_qsqrt n u (q : Quantity (n + n)) :
  to_value u (qsqrt n q) = sqrt (to_value u q).
Proof.
  unfold to_value, qsqrt; simpl. rewrite pow_add.
  set (k := (in_radians (unit q) / in_radians u) ^ n).
  assert (Hk : 0 < k) by apply ratio_pow_pos.
  destruct (Rle_dec 0 (value q)) as [Hv | Hv].
  - rewrite sqrt_mult_alt by assumption.
    rewrite sqrt_square by lra. reflexivity.
  - assert (value q < 0) by lra.
    rewrite (sqrt_neg_0 (value q)) by lra.
    rewrite sqrt_neg_0; [ring | nra].
Qed.

Lemma Rltb_scale k x y : 0 < k -> Rltb (x * k) (y * k) = Rltb x y.
Proof.
  intros Hk. unfold Rltb. destruct (Rlt_dec x y), (Rlt_dec (x * k) (y * k)); try reflexivity; exfalso; nra.
Qed.

Lemma Reqb_scale k x y : 0 < k -> Reqb (x * k) (y * k) = Reqb x y.
Proof.
  intros Hk. unfold Reqb. destruct (Req_dec_T x y), (Req_dec_T (x * k) (y * k)); try reflexivity; exfalso; nra.
Qed.

Lemma qlt0_to_value n u (q : Quantity n) : qlt0 q = Rltb (to_value u q) 0.
Proof.
  unfold qlt0, to_value.
  rewrite <- (@Rltb_scale _ (value q) 0 (ratio_pow_pos (unit q) u n)).
  f_equal. ring.
Qed.

Lemma qeq0_to_value n u (q : Quantity n) : qeq0 q = Reqb (to_value u q) 0.
Proof.
  unfold qeq0, to_value.
  rewrite <- (@Reqb_scale _ (value q) 0 (ratio_pow_pos (unit q) u n)).
  f_equal. ring.
Qed.

Lemma qlt_to_value n u (a b : Quantity n) : qlt a b = Rltb (to_value u a) (to_value u b).
Proof.
  unfold qlt.
  rewrite <- (@Rltb_scale _ (value a) (to_value (unit a) b) (ratio_pow_pos (unit a) u n)).
  f_equal. unfold to_value. rewrite Rmult_assoc, ratio_chain. reflexivity.
Qed.

Lemma qeq_to_value n u (a b : Quantity n) : qeq a b = Reqb (to_value u a) (to_value u b).
Proof.
  unfold qeq.
  rewrite <- (@Reqb_scale _ (value a) (to_value (unit a) b) (ratio_pow_pos (unit a) u n)).
  f_equal. unfold to_value. rewrite Rmult_assoc, ratio_chain. reflexivity.
Qed.

Lemma atan2_scale k y x : 0 < k -> atan2 (y * k) (x * k) = atan2 y x.
Proof.
  intros Hk. unfold atan2.
  assert (Hq : x <> 0 -> y * k / (x * k) = y / x) by (intros; field; lra).
  destruct (Rlt_dec 0 x) as [Hx | Hx].
  - destruct (Rlt_dec 0 (x * k)); [ | exfalso; nra ]. rewrite Hq by lra. reflexivity.
  - destruct (Rlt_dec 0 (x * k)); [ exfalso; nra | ].
    destruct (Rlt_dec x 0) as [Hx' | Hx'].
    + destruct (Rlt_dec (x * k) 0); [ | exfalso; nra ]. rewrite Hq by lra.
      destruct (Rle_dec 0 y), (Rle_dec 0 (y * k)); try reflexivity; exfalso; nra.
    + destruct (Rlt_dec (x * k) 0); [ exfalso; nra | ].
      destruct (Rlt_dec 0 y), (Rlt_dec 0 (y * k)); try reflexivity; try (exfalso; nra).
      destruct (Rlt_dec y 0), (Rlt_dec (y * k) 0); try reflexivity; exfalso; nra.
Qed.

Lemma value_arctan2 n u (a b : Quantity n) :
  value (arctan2 a b) = atan2 (to_value u a) (to_value u b).
Proof.
  unfold arctan2; simpl.
  rewrite <- (@atan2_scale _ (value a) (to_value (unit a) b) (ratio_pow_pos (unit a) u n)).
  f_equal. unfold to_value. rewrite Rmult_assoc, ratio_chain. reflexivity.
Qed.

(** ** Convolution *)

(** A quantity is its unit and its magnitude in any one unit. *)
Lemma quantity_ext n u (p q : Quantity n) :
  unit p = unit q -> to_value u p = to_value u q -> p = q.
Proof.
  destruct p as [vp up], q as [vq uq]; unfold to_value; simpl. intros -> H.
  apply Rmult_eq_reg_r in H; [ subst; reflexivity | ].
  pose proof (ratio_pow_pos uq u n). lra.
Qed.

Lemma Beam_ext (C D : Beam) :
  unit (major C) = unit (major D) -> unit (minor C) = unit (minor D) ->
  unit (pa C) = unit (pa D) ->
  major_deg C = major_deg D -> minor_deg C = minor_deg D -> pa_rad C = pa_rad D ->
  C = D.
Proof.
  destruct C as [M m p], D as [M' m' p']; unfold major_deg, minor_deg, pa_rad; cbn [major minor pa].
  intros U1 U2 U3 V1 V2 V3.
  f_equal; eapply quantity_ext; eassumption.
Qed.

Create Rewrite HintDb qty.
#[local] Hint Rewrite to_value_qadd to_value_qsub to_value_qscale to_value_qtimes
  to_value_qsqr to_value_qabs to_value_qsqrt : qty.

Ltac normalise_quantities :=
  autorewrite with qty; unfold qcos, qsin.

(** What [convolve] returns, read in degrees and radians. *)
Lemma convolve_normal (A B : Beam) :
  exists C, convolve A B = Ok C /\
    major_deg C = spec_new_major (spec_conv_alpha A B) (spec_conv_beta A B) (spec_conv_gamma A B) /\
    minor_deg C = spec_new_minor (spec_conv_alpha A B) (spec_conv_beta A B) (spec_conv_gamma A B) /\
    pa_rad C = spec_new_pa (spec_conv_alpha A B) (spec_conv_beta A B) (spec_conv_gamma A B) /\
    unit (major C) = unit (major A) /\ unit (minor C) = unit (major A) /\
    unit (pa C) = spec_new_pa_unit (spec_conv_alpha A B) (spec_conv_beta A B) (spec_conv_gamma A B).
Proof.
  unfold convolve, Beam_new. cbn [option_map assume_deg].
  eexists. split; [reflexivity | ].
  unfold major_deg at 1, minor_deg at 1, pa_rad at 1. cbn [major minor pa].
  split; [ | split; [ | split; [ | split; [ | split ] ] ] ]; try reflexivity.
  - normalise_quantities. reflexivity.
  - normalise_quantities. reflexivity.
  - rewrite (qeq0_to_value deg). normalise_quantities.
    unfold spec_new_pa, Reqb.
    fold (major_deg A) (major_deg B) (minor_deg A) (minor_deg B) (pa_rad A) (pa_rad B).
    fold (spec_conv_alpha A B) (spec_conv_beta A B) (spec_conv_gamma A B).
    destruct (Req_dec_T _ 0) as [Hz | Hz].
    + unfold to_value; simpl. lra.
    + rewrite to_value_qscale. f_equal.
      unfold to_value at 1. cbn [unit arctan2].
      rewrite (value_arctan2 deg). normalise_quantities.
      replace (in_radians radian / in_radians radian) with 1 by (simpl; field).
      rewrite pow1, Rmult_1_r.
      fold (major_deg A) (major_deg B) (minor_deg A) (minor_deg B) (pa_rad A) (pa_rad B).
      fold (spec_conv_alpha A B) (spec_conv_beta A B) (spec_conv_gamma A B).
      f_equal. ring.
  - rewrite (qeq0_to_value deg). normalise_quantities.
    unfold spec_new_pa_unit, Reqb.
    fold (major_deg A) (major_deg B) (minor_deg A) (minor_deg B) (pa_rad A) (pa_rad B).
    fold (spec_conv_alpha A B) (spec_conv_beta A B) (spec_conv_gamma A B).
    destruct (Req_dec_T _ 0); reflexivity.
Qed.

Lemma spec_conv_alpha_comm A B : spec_conv_alpha A B = spec_conv_alpha B A.
Proof. unfold spec_conv_alpha. ring. Qed.
Lemma spec_conv_beta_comm A B : spec_conv_beta A B = spec_conv_beta B A.
Proof. unfold spec_conv_beta. ring. Qed.
Lemma spec_conv_gamma_comm A B : spec_conv_gamma A B = spec_conv_gamma B A.
Proof. unfold spec_conv_gamma. ring. Qed.

Lemma Reqb_refl x : Reqb x x = true.
Proof. unfold Reqb. destruct (Req_dec_T x x); congruence. Qed.



(** *** The square roots of [convolve] are real *)

Lemma lagrange_4 (x1 x2 x3 x4 y1 y2 y3 y4 : R) :
  (x1 * y1 + x2 * y2 + x3 * y3 + x4 * y4) ^ 2
  <= (x1 ^ 2 + x2 ^ 2 + x3 ^ 2 + x4 ^ 2) * (y1 ^ 2 + y2 ^ 2 + y3 ^ 2 + y4 ^ 2).
Proof.
  assert (H : (x1 ^ 2 + x2 ^ 2 + x3 ^ 2 + x4 ^ 2) * (y1 ^ 2 + y2 ^ 2 + y3 ^ 2 + y4 ^ 2)
              - (x1 * y1 + x2 * y2 + x3 * y3 + x4 * y4) ^ 2
              = (x1 * y2 - x2 * y1) ^ 2 + (x1 * y3 - x3 * y1) ^ 2 + (x1 * y4 - x4 * y1) ^ 2
                + (x2 * y3 - x3 * y2) ^ 2 + (x2 * y4 - x4 * y2) ^ 2
                + (x3 * y4 - x4 * y3) ^ 2) by ring.
  pose proof (pow2_ge_0 (x1 * y2 - x2 * y1)). pose proof (pow2_ge_0 (x1 * y3 - x3 * y1)).
  pose proof (pow2_ge_0 (x1 * y4 - x4 * y1)). pose proof (pow2_ge_0 (x2 * y3 - x3 * y2)).
  pose proof (pow2_ge_0 (x2 * y4 - x4 * y2)). pose proof (pow2_ge_0 (x3 * y4 - x4 * y3)).
  lra.
Qed.

(** The sum of two covariances is a covariance: under the square roots of
    [convolve] nothing is negative. *)
Lemma convolve_t_le_s (A B : Beam) :
  spec_t (spec_conv_alpha A B) (spec_conv_beta A B) (spec_conv_gamma A B)
  <= spec_s (spec_conv_alpha A B) (spec_conv_beta A B).
Proof.
  pose proof (lagrange_4 (major_deg A * cos (pa_rad A)) (minor_deg A * sin (pa_rad A))
                         (major_deg B * cos (pa_rad B)) (minor_deg B * sin (pa_rad B))
                         (- (major_deg A * sin (pa_rad A))) (minor_deg A * cos (pa_rad A))
                         (- (major_deg B * sin (pa_rad B))) (minor_deg B * cos (pa_rad B)))
    as HL.
  set (alpha := spec_conv_alpha A B). set (beta := spec_conv_beta A B).
  set (gamma := spec_conv_gamma A B).
  assert (Hg : (gamma / 2) ^ 2 <= alpha * beta).
  { unfold alpha, beta, gamma, spec_conv_alpha, spec_conv_beta, spec_conv_gamma.
    match type of HL with ?l <= ?r =>
      apply Rle_trans with l; [ right; field | apply Rle_trans with r; [ exact HL | right; ring ] ]
    end. }
  assert (Ha : 0 <= alpha).
  { unfold alpha, spec_conv_alpha.
    pose proof (pow2_ge_0 (major_deg A * cos (pa_rad A))).
    pose proof (pow2_ge_0 (minor_deg A * sin (pa_rad A))).
    pose proof (pow2_ge_0 (major_deg B * cos (pa_rad B))).
    pose proof (pow2_ge_0 (minor_deg B * sin (pa_rad B))). lra. }
  assert (Hb : 0 <= beta).
  { unfold beta, spec_conv_beta.
    pose proof (pow2_ge_0 (major_deg A * sin (pa_rad A))).
    pose proof (pow2_ge_0 (minor_deg A * cos (pa_rad A))).
    pose proof (pow2_ge_0 (major_deg B * sin (pa_rad B))).
    pose proof (pow2_ge_0 (minor_deg B * cos (pa_rad B))). lra. }
  unfold spec_t, spec_s.
  rewrite <- (sqrt_square (alpha + beta)) by lra.
  apply sqrt_le_1_alt. nra.
Qed.

(** *** The scenario of the circular unit beam *)

Lemma major_deg_of_numbers x y z : major_deg (Beam_of_numbers x y z) = x.
Proof. unfold major_deg, Beam_of_numbers. cbn [major]. apply (to_value_self (mkQ 1 x deg)). Qed.

Lemma minor_deg_of_numbers x y z : minor_deg (Beam_of_numbers x y z) = y.
Proof. unfold minor_deg, Beam_of_numbers. cbn [minor]. apply (to_value_self (mkQ 1 y deg)). Qed.

Lemma pa_rad_of_zero x y : pa_rad (Beam_of_numbers x y 0) = 0.
Proof. unfold pa_rad, Beam_of_numbers, to_value. cbn [pa value]. ring. Qed.

Lemma unit_circle_convolution :
  convolve (Beam_of_numbers 1 1 0) (Beam_of_numbers 1 1 0)
  = Ok (Beam_of_numbers (sqrt 2) (sqrt 2) 0).
Proof.
  destruct (convolve_normal (Beam_of_numbers 1 1 0) (Beam_of_numbers 1 1 0))
    as (C & HC & M1 & M2 & M3 & U1 & U2 & U3).
  assert (Ha : spec_conv_alpha (Beam_of_numbers 1 1 0) (Beam_of_numbers 1 1 0) = 2).
  { unfold spec_conv_alpha.
    rewrite major_deg_of_numbers, minor_deg_of_numbers, pa_rad_of_zero, cos_0, sin_0. ring. }
  assert (Hb : spec_conv_beta (Beam_of_numbers 1 1 0) (Beam_of_numbers 1 1 0) = 2).
  { unfold spec_conv_beta.
    rewrite major_deg_of_numbers, minor_deg_of_numbers, pa_rad_of_zero, cos_0, sin_0. ring. }
  assert (Hg : spec_conv_gamma (Beam_of_numbers 1 1 0) (Beam_of_numbers 1 1 0) = 0).
  { unfold spec_conv_gamma.
    rewrite major_deg_of_numbers, minor_deg_of_numbers, pa_rad_of_zero, cos_0, sin_0. ring. }
  rewrite Ha, Hb, Hg in *.
  assert (Ht : spec_t 2 2 0 = 0).
  { unfold spec_t. replace ((2 - 2) ^ 2 + 0 ^ 2) with 0 by ring. apply sqrt_0. }
  unfold spec_new_major, spec_new_minor, spec_new_pa, spec_new_pa_unit, spec_s in *.
  rewrite Ht in *.
  replace (0.5 * (2 + 2 + 0)) with 2 in M1 by lra.
  replace (0.5 * (2 + 2 - 0)) with 2 in M2 by lra.
  destruct (Req_dec_T (Rabs 0 + Rabs (2 - 2)) 0) as [_ | Hn].
  - rewrite HC. f_equal.
    apply Beam_ext; try assumption;
      rewrite ?major_deg_of_numbers, ?minor_deg_of_numbers, ?pa_rad_of_zero; assumption.
  - exfalso. apply Hn. replace (2 - 2) with 0 by ring. rewrite Rabs_R0. ring.
Qed.

(** C3: [convolve A B] returns a beam whose major axis is [sqrt(0.5 (s + t))],
    whose minor axis is [sqrt(0.5 (s - t))] and whose position angle is [0]
    when [|gamma| + |alpha - beta| = 0] and [0.5 atan2(-gamma, alpha - beta)]
    otherwise, over the sums alpha, beta, gamma of the two beams (the minor
    axis is the root of a number that is not negative); and the
    circular unit beam convolved with itself is circular, [sqrt 2] wide, at
    angle [0]. *)
Theorem convolve_formula (A B : Beam) :
  (exists C, convolve A B = Ok C /\
     let alpha := spec_conv_alpha A B in
     let beta := spec_conv_beta A B in
     let gamma := spec_conv_gamma A B in
     let s := alpha + beta in
     let t := sqrt ((alpha - beta) ^ 2 + gamma ^ 2) in
     major_deg C = sqrt (0.5 * (s + t)) /\
     minor_deg C = sqrt (0.5 * (s - t)) /\
     pa_rad C = (if Req_dec_T (Rabs gamma + Rabs (alpha - beta)) 0 then 0
                 else 0.5 * atan2 (- gamma) (alpha - beta)) /\
     0 <= 0.5 * (s - t)) /\
  (b <- Beam_new (Some (PyNum 1)) (Some (PyNum 1)) (Some (PyNum 0)) None ;; convolve b b)
  = Beam_new (Some (PyNum (sqrt 2))) (Some (PyNum (sqrt 2))) (Some (PyNum 0)) None.
Proof.
  split.
  - destruct (convolve_normal A B) as (C & HC & M1 & M2 & M3 & _).
    exists C. split; [ exact HC | ]. cbv zeta. repeat split; try assumption.
    pose proof (convolve_t_le_s A B) as Hle. unfold spec_t, spec_s in Hle. lra.
  - apply unit_circle_convolution.
Qed.

(** ** Deconvolution *)






Ltac fold_beam A B :=
  fold (major_deg A) (major_deg B) (minor_deg A) (minor_deg B) (pa_rad A) (pa_rad B).

Lemma Rltb_true x y : Rltb x y = true <-> x < y.
Proof. unfold Rltb. destruct (Rlt_dec x y); split; intros; try assumption; try reflexivity; try discriminate; contradiction. Qed.

Lemma infeasible_guard (A B : Beam) :
  let alpha := spec_deconv_alpha A B in
  let beta := spec_deconv_beta A B in
  let gamma := spec_deconv_gamma A B in
  Rltb alpha 0 || Rltb beta 0 || Rltb (spec_s alpha beta) (spec_t alpha beta gamma) = true
  <-> spec_infeasible A B.
Proof.
  cbv zeta. unfold spec_infeasible. rewrite !orb_true_iff, !Rltb_true. tauto.
Qed.

(** What [deconvolve] does on each side of its check. *)
Lemma deconvolve_cases (A B : Beam) (f : bool) :
  let alpha := spec_deconv_alpha A B in
  let beta := spec_deconv_beta A B in
  let gamma := spec_deconv_gamma A B in
  if Rltb alpha 0 || Rltb beta 0 || Rltb (spec_s alpha beta) (spec_t alpha beta gamma)
  then deconvolve A B f = (if f then Ok zero_beam else Raise could_not_be_deconvolved)
  else exists C, deconvolve A B f = Ok C /\
         major_deg C = spec_new_major alpha beta gamma /\
         minor_deg C = spec_new_minor alpha beta gamma /\
         pa_rad C = spec_new_pa alpha beta gamma /\
         unit (major C) = unit (major A) /\ unit (minor C) = unit (major A) /\
         unit (pa C) = spec_new_pa_unit alpha beta gamma.
Proof.
  cbv zeta. unfold deconvolve. cbv zeta.
  rewrite !(qlt0_to_value deg), (qlt_to_value deg).
  normalise_quantities. fold_beam A B.
  fold (spec_deconv_alpha A B) (spec_deconv_beta A B) (spec_deconv_gamma A B).
  fold (spec_s (spec_deconv_alpha A B) (spec_deconv_beta A B)).
  fold (spec_t (spec_deconv_alpha A B) (spec_deconv_beta A B) (spec_deconv_gamma A B)).
  destruct (_ || _ || _).
  - destruct f; reflexivity.
  - unfold Beam_new. cbn [option_map assume_deg].
    eexists. split; [reflexivity | ].
    unfold major_deg at 1, minor_deg at 1, pa_rad at 1. cbn [major minor pa].
    split; [ | split; [ | split; [ | split; [ | split ] ] ] ]; try reflexivity.
    + normalise_quantities. reflexivity.
    + normalise_quantities. reflexivity.
    + rewrite (qeq0_to_value deg). normalise_quantities.
      unfold spec_new_pa, Reqb. fold_beam A B.
      fold (spec_deconv_alpha A B) (spec_deconv_beta A B) (spec_deconv_gamma A B).
      destruct (Req_dec_T _ 0) as [Hz | Hz].
      * unfold pa_rad at 1. cbn [pa assume_deg]. unfold to_value; simpl. lra.
      * unfold pa_rad at 1. cbn [pa assume_deg]. rewrite to_value_qscale. f_equal.
        unfold to_value at 1. cbn [unit arctan2].
        rewrite (value_arctan2 deg). normalise_quantities.
        replace (in_radians radian / in_radians radian) with 1 by (simpl; field).
        rewrite pow1, Rmult_1_r. fold_beam A B.
        fold (spec_deconv_alpha A B) (spec_deconv_beta A B) (spec_deconv_gamma A B).
        f_equal. ring.
    + rewrite (qeq0_to_value deg). normalise_quantities.
      unfold spec_new_pa_unit, Reqb. fold_beam A B.
      fold (spec_deconv_alpha A B) (spec_deconv_beta A B) (spec_deconv_gamma A B).
      cbn [pa]. destruct (Req_dec_T _ 0); reflexivity.
Qed.

Lemma self_deconvolution_values (A : Beam) :
  spec_deconv_alpha A A = 0 /\ spec_deconv_beta A A = 0 /\ spec_deconv_gamma A A = 0.
Proof. unfold spec_deconv_alpha, spec_deconv_beta, spec_deconv_gamma. repeat split; ring. Qed.

(** C1: a beam deconvolved from itself sits on the edge of the check.  In
    exact arithmetic the three sums are zero whatever the beam, so that
    [alpha < 0], [beta < 0] and [s < t] are decided by the rounding of the
    doubles alone.  On doubles the check passes for [Beam(2, 2, 0)], as the
    scenario has it, and refuses [Beam(1, 1, 0)] less [Beam(2, 2, 0)]; it also
    refuses [Beam(3, 1, 45)] less itself, given the doubles nearest to the
    cosine and the sine of 45 degrees, and [Beam(10, 1, 40)] less itself for
    each of the doubles within four places of the nearest ones that the
    cosine and the sine of 40 degrees can come back as. *)
Theorem self_deconvolution_is_refused_on_doubles :
  (forall A : Beam,
     spec_deconv_alpha A A = 0 /\ spec_deconv_beta A A = 0 /\ spec_deconv_gamma A A = 0) /\
  Binary64.deconvolve_fails Binary64.Beam_2_2_0 Binary64.Beam_2_2_0 = false /\
  Binary64.deconvolve_fails Binary64.Beam_1_1_0 Binary64.Beam_2_2_0 = true /\
  Binary64.deconvolve_fails (Binary64.Beam_3_1 Binary64.cos_45 Binary64.sin_45)
                            (Binary64.Beam_3_1 Binary64.cos_45 Binary64.sin_45) = true /\
  forallb (fun c => forallb (fun s =>
      Binary64.deconvolve_fails (Binary64.Beam_10_1 c s) (Binary64.Beam_10_1 c s))
    (Binary64.nearby 4 Binary64.sin_40)) (Binary64.nearby 4 Binary64.cos_40) = true.
Proof.
  split; [ exact self_deconvolution_values | ].
  repeat split; vm_compute; reflexivity.
Qed.

(** ** The constructor *)

Lemma ln_2_pos : 0 < ln 2.
Proof. pose proof ln_lt_2. lra. Qed.

Lemma SIGMA_TO_FWHM_sqr : SIGMA_TO_FWHM * SIGMA_TO_FWHM = 8 * ln 2.
Proof. unfold SIGMA_TO_FWHM. apply sqrt_sqrt. pose proof ln_2_pos. lra. Qed.

(** With an area the three other arguments are not looked at. *)
Lemma Beam_new_area (major minor pa : option pyval) (a : R) :
  Beam_new major minor pa (Some a)
  = Ok (Beam_of_numbers (area_fwhm a) (area_fwhm a) 0).
Proof. reflexivity. Qed.

(** Without one, the major axis is the one given, the minor axis defaults to
    it and the angle to zero. *)
Lemma Beam_new_major (M : pyval) (minor pa : option pyval) :
  Beam_new (Some M) minor pa None
  = Ok (mkBeam (assume_deg M)
               (match minor with Some m => assume_deg m | None => assume_deg M end)
               (match pa with Some p => assume_deg p | None => mkQ 1 0 deg end)).
Proof. destruct minor, pa; reflexivity. Qed.

Lemma area_fwhm_sqr (a : R) : 0 <= a -> area_fwhm a * area_fwhm a * FWHM_TO_AREA = a.
Proof.
  intros Ha. unfold area_fwhm, FWHM_TO_AREA.
  pose proof PI_RGT_0. pose proof ln_2_pos.
  assert (Hq : 0 <= a / (2 * PI)) by (apply Rle_mult_inv_pos; lra).
  replace (sqrt (a / (2 * PI)) * SIGMA_TO_FWHM * (sqrt (a / (2 * PI)) * SIGMA_TO_FWHM))
    with ((sqrt (a / (2 * PI)) * sqrt (a / (2 * PI))) * (SIGMA_TO_FWHM * SIGMA_TO_FWHM)) by ring.
  rewrite sqrt_sqrt by assumption. rewrite SIGMA_TO_FWHM_sqr. field. lra.
Qed.

Lemma deg2_lt_1 : (PI / 180) ^ 2 < 1.
Proof. pose proof PI_RGT_0. pose proof PI_4. nra. Qed.

(** C10: built from a plain-number area [a > 0] alone, the beam is circular
    with FWHM [sqrt(a / 2 pi) * sqrt(8 ln 2)] tagged as degrees, so its solid
    angle is [a * (pi / 180) ** 2] steradians, which is not [a]. *)
Theorem area_is_read_in_square_degrees (a : R) (Ha : 0 < a) :
  exists b, Beam_new None None None (Some a) = Ok b /\
    major b = mkQ 1 (sqrt (a / (2 * PI)) * sqrt (8 * ln 2)) deg /\
    minor b = mkQ 1 (sqrt (a / (2 * PI)) * sqrt (8 * ln 2)) deg /\
    pa b = mkQ 1 0 deg /\
    sr b = mkQ 2 (a * (PI / 180) ^ 2) radian /\
    value (sr b) <> a.
Proof.
  eexists. split; [ apply Beam_new_area | ].
  assert (Hsr : value (sr (Beam_of_numbers (area_fwhm a) (area_fwhm a) 0)) = a * (PI / 180) ^ 2).
  { unfold sr, _to_area, Beam_of_numbers. cbn [major minor value unit in_radians].
    rewrite area_fwhm_sqr by lra. ring. }
  repeat split.
  - unfold sr, _to_area in *. cbn [major minor value unit] in *. f_equal. exact Hsr.
  - rewrite Hsr. pose proof deg2_lt_1. nra.
Qed.

(** The area [1]. *)
Lemma area_is_read_in_square_degrees_witness :
  0 < 1 /\
  exists b, Beam_new None None None (Some 1) = Ok b /\
    major b = mkQ 1 (sqrt (1 / (2 * PI)) * sqrt (8 * ln 2)) deg /\
    minor b = mkQ 1 (sqrt (1 / (2 * PI)) * sqrt (8 * ln 2)) deg /\
    pa b = mkQ 1 0 deg /\
    sr b = mkQ 2 (1 * (PI / 180) ^ 2) radian /\
    value (sr b) <> 1.
Proof. split; [ lra | apply (@area_is_read_in_square_degrees 1); lra ]. Defined.

(** C4: the constructor at [major = 2 deg], [minor = 1 deg], [pa = 30 deg],
    [area = 1]: the area wins.  The beam is the circular beam of that area at
    angle [0], neither axis nor the angle is the one supplied. *)
Theorem area_overrides_major_and_minor :
  exists b,
    Beam_new (Some (PyQuantity (mkQ 1 2 deg))) (Some (PyQuantity (mkQ 1 1 deg)))
             (Some (PyQuantity (mkQ 1 30 deg))) (Some 1) = Ok b /\
    b = Beam_of_numbers (area_fwhm 1) (area_fwhm 1) 0 /\
    major b = minor b /\
    ~ (major b = mkQ 1 2 deg /\ minor b = mkQ 1 1 deg) /\
    pa b <> mkQ 1 30 deg.
Proof.
  eexists. split; [ apply Beam_new_area | ].
  split; [ reflexivity | split; [ reflexivity | split ] ].
  - unfold Beam_of_numbers. cbn [major minor]. intros [H1 H2].
    rewrite H1 in H2. injection H2. lra.
  - unfold Beam_of_numbers. cbn [pa]. intros H. injection H. lra.
Qed.

(** ** Header keywords *)

(** Reading a card after writing one. *)
Lemma lookup_set_same key v cs : lookup key (set_card key v cs) = Some v.
Proof.
  induction cs as [ | [k v'] cs IH]; simpl.
  - rewrite String.eqb_refl. reflexivity.
  - destruct (String.eqb k key) eqn:E; simpl.
    + rewrite String.eqb_refl. reflexivity.
    + rewrite E. exact IH.
Qed.

Lemma lookup_set_other key key' v cs :
  key <> key' -> lookup key (set_card key' v cs) = lookup key cs.
Proof.
  intros Hne. induction cs as [ | [k v'] cs IH]; simpl.
  - destruct (String.eqb key' key) eqn:E; [ | reflexivity ].
    apply String.eqb_eq in E. congruence.
  - destruct (String.eqb k key') eqn:E; simpl.
    + apply String.eqb_eq in E. subst k.
      destruct (String.eqb key' key) eqn:E'; [ | reflexivity ].
      apply String.eqb_eq in E'. congruence.
    + destruct (String.eqb k key); [ reflexivity | exact IH ].
Qed.

Lemma attached_keywords (b : Beam) (header : Header) (copy : bool) :
  let h := attach_to_header b header copy in
  lookup "BMAJ" (cards h) = Some (to_value deg (major b)) /\
  lookup "BMIN" (cards h) = Some (to_value deg (minor b)) /\
  lookup "BPA" (cards h) = Some (to_value deg (pa b)) /\
  history h = history header.
Proof.
  cbv zeta. unfold attach_to_header, update, to_header_keywords.
  cbn [fold_left fst snd cards history].
  repeat split.
  - rewrite !lookup_set_other by discriminate. apply lookup_set_same.
  - rewrite lookup_set_other by discriminate. apply lookup_set_same.
  - apply lookup_set_same.
Qed.

Lemma qeq_to_left n u (q : Quantity n) : qeq (mkQ n (to_value u q) u) q = true.
Proof. unfold qeq. cbn [value unit]. apply Reqb_refl. Qed.

(** C8: the header a beam is attached to parses back to a beam [b'] in
    degrees, and [b' == b] holds, whatever the header held before and
    whatever the position angle: the comparison converts [b] to degrees the
    way the keywords were written. *)
Theorem header_round_trip (getheader : string -> result Header)
    (b : Beam) (header : Header) (copy : bool) :
  exists b', from_fits_header getheader (PyHeader (attach_to_header b header copy)) = Ok b' /\
             Beam_eq b' b = true.
Proof.
  destruct (attached_keywords b header copy) as (Hmaj & Hmin & Hpa & _).
  cbv zeta in *. unfold from_fits_header. cbn [bind].
  rewrite Hmaj, Hmin, Hpa. cbn [option_map].
  eexists. split; [ reflexivity | ].
  unfold Beam_eq. cbn [major minor pa assume_deg].
  rewrite !qeq_to_left. reflexivity.
Qed.

(** ** Brightness temperature *)



(** ** The AIPS fallback *)

Example split_aips_line :
  split aips_line
  = ["AIPS"; "CLEAN"; "BMAJ="; "1.7599E-03"; "BMIN="; "1.5740E-03"; "BPA="; "2.61"]%string.
Proof. reflexivity. Qed.

Example split_dotted_line :
  split dotted_line
  = ["..."; "BMAJ="; "1.7599E-03"; "BMIN="; "1.5740E-03"; "BPA="; "2.61"]%string.
Proof. reflexivity. Qed.

Example float_of_an_AIPS_number : py_float "1.7599E-03" = Ok (Qmake 17599 10000000).
Proof. reflexivity. Qed.

Example float_of_a_keyword : py_float "BMIN=" = Raise (ValueError "could not convert string to float").
Proof. reflexivity. Qed.

Example extension_is_read_in_lower_case :
  endswith_any fits_extensions (lower "Image.FITS") = true /\
  endswith_any fits_extensions (lower "image.fits.Z") = false /\
  endswith_any fits_extensions (lower "image.txt") = false.
Proof. repeat split; reflexivity. Qed.

Example last_of_two_BMAJ_lines :
  last_BMAJ_line ["a BMAJ= 1"; "no beam here"; "b BMAJ= 2"; "nor here"]%string
  = Some "b BMAJ= 2"%string.
Proof. reflexivity. Qed.

(** The loop keeps what it has found over lines without [BMAJ]. *)
Lemma scan_without_BMAJ (lines : list string) (found : option string) :
  (forall l, In l lines -> contains "BMAJ" l = false) ->
  fold_left (fun aipsline line => if contains "BMAJ" line then Some line else aipsline)
            lines found = found.
Proof.
  revert found. induction lines as [ | line lines IH]; intros found H; simpl.
  - reflexivity.
  - rewrite (H line) by (left; reflexivity). apply IH.
    intros l Hl. apply H. right. exact Hl.
Qed.

Lemma last_BMAJ_line_none (lines : list string) :
  (forall l, In l lines -> contains "BMAJ" l = false) -> last_BMAJ_line lines = None.
Proof. apply scan_without_BMAJ. Qed.

Lemma last_BMAJ_line_last (pre post : list string) (line : string) :
  contains "BMAJ" line = true ->
  (forall l, In l post -> contains "BMAJ" l = false) ->
  last_BMAJ_line (pre ++ line :: post) = Some line.
Proof.
  intros Hline Hpost. unfold last_BMAJ_line.
  rewrite fold_left_app. simpl. rewrite Hline. apply scan_without_BMAJ. exact Hpost.
Qed.

(** A header with a HISTORY card gives its lines. *)
Lemma history_cards_some (hdr : Header) (pre post : list string) (line : string) :
  history hdr = pre ++ line :: post -> history_cards hdr = Ok (pre ++ line :: post).
Proof.
  intros H. unfold history_cards. rewrite H. destruct pre; reflexivity.
Qed.

Lemma history_cards_nonempty (hdr : Header) :
  history hdr <> [] -> history_cards hdr = Ok (history hdr).
Proof.
  intros H. unfold history_cards. destruct (history hdr); [ contradiction | reflexivity ].
Qed.

(** C5, as the code has it: with no [BMAJ] card, the last HISTORY line that
    has [BMAJ] in it is the one read; when its words 3, 5 and 7 exist and
    read as floats, the beam has them as major, minor and pa, in degrees. *)
Theorem aips_history_fallback (getheader : string -> result Header) (hdr : Header)
    (pre post : list string) (line t3 t5 t7 : string) (bmaj bmin bpa : Q) :
  lookup "BMAJ" (cards hdr) = None ->
  history hdr = pre ++ line :: post ->
  contains "BMAJ" line = true ->
  (forall l, In l post -> contains "BMAJ" l = false) ->
  nth_error (split line) 3 = Some t3 ->
  nth_error (split line) 5 = Some t5 ->
  nth_error (split line) 7 = Some t7 ->
  py_float t3 = Ok bmaj -> py_float t5 = Ok bmin -> py_float t7 = Ok bpa ->
  from_fits_header getheader (PyHeader hdr)
  = Ok (mkBeam (mkQ 1 (Q2R bmaj) deg) (mkQ 1 (Q2R bmin) deg) (mkQ 1 (Q2R bpa) deg)).
Proof.
  intros Hkey Hhist Hline Hpost H3 H5 H7 F3 F5 F7.
  unfold from_fits_header. cbn [bind]. rewrite Hkey.
  unfold from_aips_header. rewrite (@history_cards_some hdr pre post line Hhist). cbn [bind].
  rewrite (@last_BMAJ_line_last pre post line Hline Hpost).
  unfold float_token. rewrite H3, H5, H7, F3, F5, F7. reflexivity.
Qed.

(** The AIPS line of the source's comment. *)
Lemma aips_history_fallback_witness :
  from_fits_header no_file (PyHeader (mkHeader [] [aips_line]))
  = Ok (mkBeam (mkQ 1 0.0017599 deg) (mkQ 1 0.0015740 deg) (mkQ 1 2.61 deg)).
Proof.
  apply (@aips_history_fallback no_file (mkHeader [] [aips_line]) [] [] aips_line
           "1.7599E-03" "1.5740E-03" "2.61"
           (Qmake 17599 10000000) (Qmake 15740 10000000) (Qmake 261 100)).
  - reflexivity.
  - reflexivity.
  - vm_compute. reflexivity.
  - intros l [].
  - vm_compute. reflexivity.
  - vm_compute. reflexivity.
  - vm_compute. reflexivity.
  - vm_compute. reflexivity.
  - vm_compute. reflexivity.
  - vm_compute. reflexivity.
Defined.

(** C5 fails on the scenario's line read letter for letter, whose word 3 is
    [BMIN=], and on a line too short to have a word 3: both calls raise. *)
Lemma scenario_line_raises :
  from_fits_header no_file (PyHeader (mkHeader [] [dotted_line]))
  = Raise (ValueError "could not convert string to float") /\
  from_fits_header no_file (PyHeader (mkHeader [] ["BMAJ"%string]))
  = Raise (IndexError "list index out of range").
Proof. split; vm_compute; reflexivity. Qed.

(** C6, as the code has it: a header with no [BMAJ] card whose HISTORY cards
    have no line with [BMAJ] in it makes [from_fits_header] raise
    [TypeError("No BMAJ found ...")]; an unrecognized extension and an
    argument that is neither a header nor a string raise [TypeError] too, and
    the three differ by their messages only. *)
Theorem no_BMAJ_found_raises (getheader : string -> result Header) (hdr : Header) :
  lookup "BMAJ" (cards hdr) = None ->
  history hdr <> [] ->
  (forall line, In line (history hdr) -> contains "BMAJ" line = false) ->
  from_fits_header getheader (PyHeader hdr) = Raise no_BMAJ_found /\
  (forall s, endswith_any fits_extensions (lower s) = false ->
             from_fits_header getheader (PyStr s) = Raise unrecognized_extension) /\
  from_fits_header getheader PyOther = Raise not_a_header /\
  class_of no_BMAJ_found = TypeError_class /\
  class_of unrecognized_extension = TypeError_class /\
  class_of not_a_header = TypeError_class /\
  message_of no_BMAJ_found <> message_of unrecognized_extension /\
  message_of no_BMAJ_found <> message_of not_a_header.
Proof.
  intros Hkey Hcards Hhist. repeat split.
  - unfold from_fits_header. cbn [bind]. rewrite Hkey.
    unfold from_aips_header. rewrite (@history_cards_nonempty hdr Hcards). cbn [bind].
    rewrite (@last_BMAJ_line_none _ Hhist). reflexivity.
  - intros s Hs. unfold from_fits_header. rewrite Hs. reflexivity.
  - discriminate.
  - discriminate.
Qed.

(** A header whose only HISTORY line does not mention a beam. *)
Lemma no_BMAJ_found_raises_witness :
  from_fits_header no_file (PyHeader beamless_header) = Raise no_BMAJ_found /\
  (forall s, endswith_any fits_extensions (lower s) = false ->
             from_fits_header no_file (PyStr s) = Raise unrecognized_extension) /\
  from_fits_header no_file PyOther = Raise not_a_header /\
  class_of no_BMAJ_found = TypeError_class /\
  class_of unrecognized_extension = TypeError_class /\
  class_of not_a_header = TypeError_class /\
  message_of no_BMAJ_found <> message_of unrecognized_extension /\
  message_of no_BMAJ_found <> message_of not_a_header.
Proof.
  apply (@no_BMAJ_found_raises no_file beamless_header).
  - reflexivity.
  - discriminate.
  - intros line [<- | []]. vm_compute. reflexivity.
Defined.

(** C6 fails on the class of the exception: the three failures are all
    [TypeError]s. *)
Lemma not_found_is_a_TypeError_like_the_others :
  raised_class (from_fits_header no_file (PyHeader beamless_header)) = Some TypeError_class /\
  raised_class (from_fits_header no_file (PyHeader beamless_header))
  = raised_class (from_fits_header no_file (PyStr "image.txt")) /\
  raised_class (from_fits_header no_file (PyHeader beamless_header))
  = raised_class (from_fits_header no_file PyOther).
Proof. repeat split; vm_compute; reflexivity. Qed.

(** ** Kernels *)

Lemma ceil_unit_interval (x : R) : 0 < x <= 1 -> ceil x = 1%Z.
Proof.
  intros [Hlo Hhi]. unfold ceil.
  destruct (archimed (- x)) as [Hup1 Hup2].
  assert (H0 : (up (- x) = 0)%Z).
  { assert (Hlt : (-1 < up (- x))%Z) by (apply lt_IZR; simpl; lra).
    assert (Hgt : (up (- x) < 1)%Z) by (apply lt_IZR; simpl; lra).
    lia. }
  rewrite H0. reflexivity.
Qed.

Lemma atan2_pos_x (y x : R) : 0 < x -> atan2 y x = atan (y / x).
Proof. intros Hx. unfold atan2. destruct (Rlt_dec 0 x); [ reflexivity | contradiction ]. Qed.

Lemma atan2_zero_x_pos_y (y : R) : 0 < y -> atan2 y 0 = PI / 2.
Proof.
  intros Hy. unfold atan2.
  destruct (Rlt_dec 0 0); [ lra | ]. destruct (Rlt_dec 0 0); [ lra | ].
  destruct (Rlt_dec 0 y); [ reflexivity | contradiction ].
Qed.

Lemma ellipse_extent_circle (a : R) : 0 < a -> ellipse_extent a a 0 = (a, a).
Proof.
  intros Ha. unfold ellipse_extent. rewrite tan_0.
  replace (- a * 0) with 0 by ring. replace (a * 0) with 0 by ring.
  rewrite (atan2_pos_x 0 Ha), (atan2_zero_x_pos_y Ha).
  replace (0 / a) with 0 by (field; lra).
  rewrite atan_0, cos_0, sin_0, cos_PI2, sin_PI2.
  f_equal; (rewrite Rabs_pos_eq; [ ring | ]); lra.
Qed.

Lemma SIGMA_TO_FWHM_gt_2 : 2 < SIGMA_TO_FWHM.
Proof.
  unfold SIGMA_TO_FWHM. pose proof ln_lt_2.
  rewrite <- (sqrt_square 2) at 1 by lra. apply sqrt_lt_1; lra.
Qed.

Lemma coarse_sigma_bounds : 0 < coarse_sigma < 1 / 200.
Proof.
  unfold coarse_sigma. pose proof SIGMA_TO_FWHM_gt_2 as H.
  split.
  - apply Rdiv_lt_0_compat; lra.
  - apply Rmult_lt_reg_r with (100 * SIGMA_TO_FWHM); [ lra | ].
    unfold Rdiv. rewrite Rmult_assoc, Rinv_l by lra. lra.
Qed.

Lemma evaluate_at_mean (m : Gaussian2D) : evaluate m (x_mean m) (y_mean m) = amplitude m.
Proof.
  unfold evaluate.
  replace (x_mean m - x_mean m) with 0 by ring.
  replace (y_mean m - y_mean m) with 0 by ring.
  match goal with |- _ * exp (- ?e) = _ => replace e with 0 by ring end.
  rewrite Ropp_0, exp_0. ring.
Qed.

Lemma coarse_amplitude :
  py_div 1 (2 * PI * coarse_sigma * coarse_sigma)
  = Ok (1 / (2 * PI * coarse_sigma * coarse_sigma)).
Proof.
  unfold py_div. pose proof coarse_sigma_bounds as Hs. pose proof PI_RGT_0 as Hpi.
  destruct (Req_dec_T _ 0) as [E | _]; [ exfalso | reflexivity ].
  assert (0 < 2 * PI * coarse_sigma * coarse_sigma).
  { apply Rmult_lt_0_compat; [ apply Rmult_lt_0_compat; lra | lra ]. }
  lra.
Qed.

(** The kernel of standard deviation [coarse_sigma], a circular beam one
    degree wide on pixels a hundred degrees wide, is a single pixel. *)
Lemma coarse_kernel :
  EllipticalGaussian2DKernel discretize_center coarse_sigma coarse_sigma 0 8
  = Ok (mkKernel2D (mkGaussian2D (1 / (2 * PI * coarse_sigma * coarse_sigma)) 0 0
                                 coarse_sigma coarse_sigma 0)
                   1
                   [[1 / (2 * PI * coarse_sigma * coarse_sigma)]]
                   (Rabs (1 - 1 / array_sum [[1 / (2 * PI * coarse_sigma * coarse_sigma)]]))).
Proof.
  unfold EllipticalGaussian2DKernel. rewrite coarse_amplitude. cbn [bind].
  pose proof coarse_sigma_bounds as Hs.
  rewrite (ellipse_extent_circle (proj1 Hs)).
  rewrite Rmax_left by lra.
  assert (Hsize : _round_up_to_odd_integer (8 * 2 * coarse_sigma) = 1%Z).
  { unfold _round_up_to_odd_integer. rewrite ceil_unit_interval by lra. reflexivity. }
  rewrite Hsize.
  assert (Harr : discretize_center
                   (mkGaussian2D (1 / (2 * PI * coarse_sigma * coarse_sigma)) 0 0
                                 coarse_sigma coarse_sigma 0) 1
                 = [[1 / (2 * PI * coarse_sigma * coarse_sigma)]]).
  { unfold discretize_center, arange.
    change (1 mod 2 =? 0)%Z with false. change (- (1 - 1) / 2)%Z with 0%Z.
    change (Z.to_nat 1) with 1%nat. cbn [seq map INR].
    replace (0 + 0) with 0 by ring.
    pose proof (evaluate_at_mean
                  (mkGaussian2D (1 / (2 * PI * coarse_sigma * coarse_sigma)) 0 0
                                coarse_sigma coarse_sigma 0)) as E.
    cbn [x_mean y_mean amplitude] in E. rewrite E. reflexivity. }
  rewrite Harr. reflexivity.
Qed.

Lemma coarse_kernel_sum :
  array_sum [[1 / (2 * PI * coarse_sigma * coarse_sigma)]] = 40000 * ln 2 / PI.
Proof.
  unfold array_sum. cbn [map fold_right]. unfold coarse_sigma.
  pose proof PI_RGT_0. pose proof SIGMA_TO_FWHM_gt_2.
  replace (40000 * ln 2) with (5000 * (SIGMA_TO_FWHM * SIGMA_TO_FWHM))
    by (rewrite SIGMA_TO_FWHM_sqr; ring).
  field. split; lra.
Qed.

Lemma coarse_kernel_sum_large : 5000 < 40000 * ln 2 / PI.
Proof.
  pose proof PI_RGT_0. pose proof PI_4. pose proof ln_lt_2.
  apply Rmult_lt_reg_r with PI; [ assumption | ].
  unfold Rdiv. rewrite Rmult_assoc, Rinv_l by lra. lra.
Qed.

Lemma Rabs_eq_sqr (x y : R) : Rabs x = Rabs y <-> x * x = y * y.
Proof.
  split; intros H.
  - apply Rsqr_eq_asb_1 in H. exact H.
  - apply Rsqr_eq_abs_0. exact H.
Qed.

(** When [|1 - 1/x|] and [|1 - x|] agree. *)
Lemma inverse_sum_truncation (total : R) :
  total <> 0 ->
  (Rabs (1 - 1 / total) = Rabs (1 - total) <-> total = 1 \/ total = -1).
Proof.
  intros Hne. rewrite Rabs_eq_sqr.
  assert (Hk : (1 - 1 / total) * (1 - 1 / total) * (total * total)
               = (1 - total) * (1 - total)) by (field; assumption).
  split.
  - intros H. rewrite H in Hk.
    assert (Hz : (1 - total) * (1 - total) * ((total - 1) * (total + 1)) = 0) by lra.
    apply Rmult_integral in Hz. destruct Hz as [Hz | Hz].
    + apply Rmult_integral in Hz. left. lra.
    + apply Rmult_integral in Hz. lra.
  - intros [-> | ->]; field_simplify; lra.
Qed.

(** C7, as the code has it: an [EllipticalGaussian2DKernel] of standard
    deviations that are not zero is built, and its truncation is
    [|1 - 1 / sum|] of its array, which is [|1 - sum|] only when the sum is
    [1] or [-1]. *)
Theorem truncation_is_one_minus_inverse_sum
    (discretize : Gaussian2D -> Z -> list (list R))
    (stddev_maj stddev_min position_angle support_scaling : R) :
  stddev_maj <> 0 -> stddev_min <> 0 ->
  exists kernel,
    EllipticalGaussian2DKernel discretize stddev_maj stddev_min position_angle support_scaling
    = Ok kernel /\
    (array_sum (_array kernel) <> 0 ->
     _truncation kernel = Rabs (1 - 1 / array_sum (_array kernel)) /\
     (_truncation kernel = spec_truncation (_array kernel)
      <-> array_sum (_array kernel) = 1 \/ array_sum (_array kernel) = -1)).
Proof.
  intros HM Hm. unfold EllipticalGaussian2DKernel, py_div.
  pose proof PI_RGT_0 as Hpi.
  destruct (Req_dec_T _ 0) as [E | _].
  - exfalso. apply Rmult_integral in E. destruct E as [E | E]; [ | contradiction ].
    apply Rmult_integral in E. destruct E as [E | E]; [ lra | contradiction ].
  - cbn [bind]. eexists. split; [ reflexivity | ].
    cbn [_array _truncation]. intros Hne. split; [ reflexivity | ].
    apply (inverse_sum_truncation Hne).
Qed.

(** The one-pixel kernel. *)
Lemma truncation_is_one_minus_inverse_sum_witness :
  exists kernel,
    EllipticalGaussian2DKernel discretize_center coarse_sigma coarse_sigma 0 8 = Ok kernel /\
    (array_sum (_array kernel) <> 0 ->
     _truncation kernel = Rabs (1 - 1 / array_sum (_array kernel)) /\
     (_truncation kernel = spec_truncation (_array kernel)
      <-> array_sum (_array kernel) = 1 \/ array_sum (_array kernel) = -1)).
Proof.
  pose proof coarse_sigma_bounds as Hs.
  apply (@truncation_is_one_minus_inverse_sum discretize_center coarse_sigma coarse_sigma 0 8);
    lra.
Defined.

(** C7 fails for the one-pixel kernel: its pixel has the value
    [40000 ln 2 / pi], and its truncation is not [|1 - sum|]. *)
Lemma truncation_is_not_one_minus_sum :
  exists kernel,
    EllipticalGaussian2DKernel discretize_center coarse_sigma coarse_sigma 0 8 = Ok kernel /\
    array_sum (_array kernel) = 40000 * ln 2 / PI /\
    _truncation kernel <> spec_truncation (_array kernel).
Proof.
  rewrite coarse_kernel. eexists. split; [ reflexivity | ].
  cbn [_array _truncation]. unfold spec_truncation.
  rewrite coarse_kernel_sum. pose proof coarse_kernel_sum_large as Hl.
  split; [ reflexivity | ].
  intros H. apply inverse_sum_truncation in H; lra.
Qed.

(** * Further properties of the code *)

(** ** The arctangent of two arguments *)

Lemma norm_pos (x y : R) : x <> 0 \/ y <> 0 -> 0 < sqrt (x ^ 2 + y ^ 2).
Proof.
  intros H. apply sqrt_lt_R0.
  pose proof (pow2_ge_0 x). pose proof (pow2_ge_0 y).
  destruct H as [H | H].
  - assert (0 < x ^ 2) by (apply pow_lt_0_compat_l || nra). lra.
  - assert (0 < y ^ 2) by nra. lra.
Qed.

Lemma sqrt_one_plus_ratio (x y : R) :
  x <> 0 -> sqrt (1 + (y / x)²) = sqrt (x ^ 2 + y ^ 2) / Rabs x.
Proof.
  intros Hx.
  assert (Hax : 0 < Rabs x) by (apply Rabs_pos_lt; exact Hx).
  replace (1 + (y / x)²) with ((x ^ 2 + y ^ 2) / (Rabs x)²).
  - rewrite sqrt_div_alt by (apply Rlt_0_sqr; lra).
    rewrite sqrt_Rsqr by lra. reflexivity.
  - rewrite <- Rsqr_abs. unfold Rsqr. field. exact Hx.
Qed.

Lemma cos_sin_atan2 (y x : R) :
  x <> 0 \/ y <> 0 ->
  cos (atan2 y x) = x / sqrt (x ^ 2 + y ^ 2) /\
  sin (atan2 y x) = y / sqrt (x ^ 2 + y ^ 2).
Proof.
  intros Hne. pose proof (norm_pos Hne) as Hr. unfold atan2.
  destruct (Rlt_dec 0 x) as [Hx | Hx].
  - rewrite cos_atan, sin_atan, sqrt_one_plus_ratio by lra.
    rewrite Rabs_pos_eq by lra. split; field; lra.
  - destruct (Rlt_dec x 0) as [Hx' | Hx'].
    + assert (Hs : sqrt (1 + (y / x)²) = sqrt (x ^ 2 + y ^ 2) / - x).
      { rewrite sqrt_one_plus_ratio by lra. rewrite Rabs_left by lra. reflexivity. }
      destruct (Rle_dec 0 y).
      * rewrite neg_cos, neg_sin, cos_atan, sin_atan, Hs. split; field; lra.
      * unfold Rminus. rewrite <- (Ropp_involutive (atan (y / x) + - PI)).
        rewrite cos_neg, sin_neg.
        replace (- (atan (y / x) + - PI)) with (- atan (y / x) + PI) by ring.
        rewrite neg_cos, neg_sin, cos_neg, sin_neg, cos_atan, sin_atan, Hs.
        split; field; lra.
    + assert (x = 0) by lra. subst x.
      replace (0 ^ 2 + y ^ 2) with (y²) in * by (unfold Rsqr; ring).
      rewrite sqrt_Rsqr_abs in *.
      destruct (Rlt_dec 0 y).
      * rewrite cos_PI2, sin_PI2, Rabs_pos_eq by lra. split; field; lra.
      * destruct (Rlt_dec y 0).
        -- rewrite cos_neg, sin_neg, cos_PI2, sin_PI2, Rabs_left by lra. split; field; lra.
        -- exfalso. destruct Hne; lra.
Qed.

Lemma atan2_range (y x : R) : - PI < atan2 y x <= PI.
Proof.
  pose proof PI_RGT_0 as Hpi. unfold atan2.
  destruct (Rlt_dec 0 x) as [Hx | Hx].
  - pose proof (atan_bound (y / x)). lra.
  - destruct (Rlt_dec x 0) as [Hx' | Hx'].
    + pose proof (atan_bound (y / x)) as Hb. destruct (Rle_dec 0 y) as [Hy | Hy].
      * assert (atan (y / x) <= 0).
        { rewrite <- atan_0. destruct (Req_dec y 0) as [-> | Hy0].
          - right. f_equal. field. lra.
          - left. apply atan_increasing.
            apply Rmult_lt_reg_r with (- x); [ lra | ].
            replace (y / x * - x) with (- y) by (field; lra). lra. }
        lra.
      * assert (0 < atan (y / x)).
        { rewrite <- atan_0. apply atan_increasing.
          apply Rmult_lt_reg_r with (- x); [ lra | ].
          replace (y / x * - x) with (- y) by (field; lra). lra. }
        lra.
    + destruct (Rlt_dec 0 y); [ lra | ]. destruct (Rlt_dec y 0); lra.
Qed.

(** ** The covariance behind the formulas *)

Lemma half : 0.5 = / 2.
Proof. lra. Qed.

Lemma spec_t_nonneg (alpha beta gamma : R) : 0 <= spec_t alpha beta gamma.
Proof. apply sqrt_pos. Qed.

Lemma degenerate_values (alpha beta gamma : R) :
  Rabs gamma + Rabs (alpha - beta) = 0 -> gamma = 0 /\ alpha = beta.
Proof.
  intros H. pose proof (Rabs_pos gamma). pose proof (Rabs_pos (alpha - beta)).
  assert (Hg : Rabs gamma = 0) by lra. assert (Hd : Rabs (alpha - beta) = 0) by lra.
  split.
  - destruct (Req_dec gamma 0) as [E | E]; [ exact E | ]. apply Rabs_no_R0 in E. contradiction.
  - destruct (Req_dec (alpha - beta) 0) as [E | E]; [ lra | ]. apply Rabs_no_R0 in E. contradiction.
Qed.

(** The axes and angle the formulas give have the covariance they were
    computed from. *)
Lemma ellipse_of_covariance (alpha beta gamma : R) :
  spec_t alpha beta gamma <= spec_s alpha beta ->
  let M := spec_new_major alpha beta gamma in
  let m := spec_new_minor alpha beta gamma in
  let p := spec_new_pa alpha beta gamma in
  (M * cos p) ^ 2 + (m * sin p) ^ 2 = alpha /\
  (M * sin p) ^ 2 + (m * cos p) ^ 2 = beta /\
  2 * ((m ^ 2 - M ^ 2) * sin p * cos p) = gamma.
Proof.
  intros Hle. cbv zeta.
  pose proof (spec_t_nonneg alpha beta gamma) as Ht.
  set (s := spec_s alpha beta) in *. set (t := spec_t alpha beta gamma) in *.
  assert (HM : spec_new_major alpha beta gamma * spec_new_major alpha beta gamma = (s + t) / 2).
  { unfold spec_new_major. fold s t. rewrite sqrt_sqrt; lra. }
  assert (Hm : spec_new_minor alpha beta gamma * spec_new_minor alpha beta gamma = (s - t) / 2).
  { unfold spec_new_minor. fold s t. rewrite sqrt_sqrt; lra. }
  set (M := spec_new_major alpha beta gamma) in *.
  set (m := spec_new_minor alpha beta gamma) in *.
  unfold spec_new_pa.
  destruct (Req_dec_T (Rabs gamma + Rabs (alpha - beta)) 0) as [Hz | Hz].
  - destruct (degenerate_values _ _ _ Hz) as [-> ->].
    assert (Ht0 : t = 0).
    { unfold t, spec_t. replace ((beta - beta) ^ 2 + 0 ^ 2) with 0 by ring. apply sqrt_0. }
    rewrite cos_0, sin_0. unfold s, spec_s in *.
    repeat split.
    + replace ((M * 1) ^ 2 + (m * 0) ^ 2) with (M * M) by ring. lra.
    + replace ((M * 0) ^ 2 + (m * 1) ^ 2) with (m * m) by ring. lra.
    + ring.
  - assert (Hne : alpha - beta <> 0 \/ - gamma <> 0).
    { destruct (Req_dec (alpha - beta) 0) as [E | E]; [ right | left; exact E ].
      intros G. apply Hz. rewrite E. replace gamma with 0 by lra. rewrite Rabs_R0. ring. }
    destruct (cos_sin_atan2 Hne) as [Hc Hs].
    replace ((alpha - beta) ^ 2 + (- gamma) ^ 2) with ((alpha - beta) ^ 2 + gamma ^ 2) in * by ring.
    fold (spec_t alpha beta gamma) in Hc, Hs. fold t in Hc, Hs.
    assert (Htpos : 0 < t).
    { unfold t, spec_t.
      replace ((alpha - beta) ^ 2 + gamma ^ 2) with ((alpha - beta) ^ 2 + (- gamma) ^ 2) by ring.
      apply norm_pos. exact Hne. }
    set (theta := atan2 (- gamma) (alpha - beta)) in *.
    rewrite half.
    replace theta with (2 * (/ 2 * theta)) in Hc, Hs by field.
    rewrite cos_2a in Hc. rewrite sin_2a in Hs.
    pose proof (sin2_cos2 (/ 2 * theta)) as H1. unfold Rsqr in H1.
    set (c := cos (/ 2 * theta)) in *. set (sn := sin (/ 2 * theta)) in *.
    assert (HtX : t * (c * c - sn * sn) = alpha - beta) by (rewrite Hc; field; lra).
    assert (HtY : t * (2 * sn * c) = - gamma) by (rewrite Hs; field; lra).
    unfold s, spec_s in *.
    repeat split.
    + replace ((M * c) ^ 2 + (m * sn) ^ 2) with (M * M * (c * c) + m * m * (sn * sn)) by ring.
      rewrite HM, Hm. nra.
    + replace ((M * sn) ^ 2 + (m * c) ^ 2) with (M * M * (sn * sn) + m * m * (c * c)) by ring.
      rewrite HM, Hm. nra.
    + replace (2 * ((m ^ 2 - M ^ 2) * sn * c)) with ((m * m - M * M) * (2 * sn * c)) by ring.
      rewrite HM, Hm. nra.
Qed.

Lemma cos_sign_right (x : R) : PI / 2 < x <= PI -> cos x < 0.
Proof. intros [H1 H2]. pose proof PI_RGT_0. apply cos_lt_0; lra. Qed.

Lemma cos_sign_left (x : R) : - PI < x < - (PI / 2) -> cos x < 0.
Proof.
  intros [H1 H2]. rewrite <- cos_neg. pose proof PI_RGT_0. apply cos_lt_0; lra.
Qed.

Lemma cos_sign_mid (x : R) : - (PI / 2) < x < PI / 2 -> 0 < cos x.
Proof. intros [H1 H2]. apply cos_gt_0; lra. Qed.

Lemma tan_shift_down (x : R) : sin x / cos x = tan (x - PI).
Proof.
  unfold tan. pose proof (neg_sin (x - PI)) as Hs. pose proof (neg_cos (x - PI)) as Hc.
  replace (x - PI + PI) with x in * by ring.
  rewrite Hs, Hc.
  destruct (Req_dec (cos (x - PI)) 0) as [E | E].
  - rewrite E. unfold Rdiv. rewrite Ropp_0, Rinv_0. ring.
  - field. exact E.
Qed.

Lemma tan_shift_up (x : R) : sin x / cos x = tan (x + PI).
Proof.
  unfold tan. rewrite neg_sin, neg_cos.
  destruct (Req_dec (cos x) 0) as [E | E].
  - rewrite E. unfold Rdiv. rewrite Ropp_0, Rinv_0. ring.
  - field. exact E.
Qed.

(** The arctangent gives back an angle of the half-open turn [(-pi, pi]]. *)
Lemma atan2_sin_cos (theta : R) : - PI < theta <= PI -> atan2 (sin theta) (cos theta) = theta.
Proof.
  intros [Hlo Hhi]. pose proof PI_RGT_0 as Hpi. unfold atan2.
  destruct (Rlt_dec 0 (cos theta)) as [Hc | Hc].
  - assert (Hmid : - (PI / 2) < theta < PI / 2).
    { split.
      - destruct (Rlt_dec (- (PI / 2)) theta) as [H | H]; [ exact H | exfalso ].
        destruct (Req_dec theta (- (PI / 2))) as [E | E].
        + rewrite E, cos_neg, cos_PI2 in Hc. lra.
        + pose proof (@cos_sign_left theta). lra.
      - destruct (Rlt_dec theta (PI / 2)) as [H | H]; [ exact H | exfalso ].
        destruct (Req_dec theta (PI / 2)) as [E | E].
        + rewrite E, cos_PI2 in Hc. lra.
        + pose proof (@cos_sign_right theta). lra. }
    fold (tan theta). apply atan_tan. exact Hmid.
  - destruct (Rlt_dec (cos theta) 0) as [Hc' | Hc'].
    + assert (Hout : PI / 2 < theta \/ theta < - (PI / 2)).
      { destruct (Rle_dec theta (PI / 2)) as [H1 | H1]; [ | left; lra ].
        destruct (Rle_dec (- (PI / 2)) theta) as [H2 | H2]; [ | right; lra ].
        exfalso. pose proof (cos_ge_0 theta). lra. }
      destruct (Rle_dec 0 (sin theta)) as [Hs | Hs].
      * assert (PI / 2 < theta).
        { destruct Hout as [H | H]; [ exact H | exfalso ].
          pose proof (sin_lt_0_var theta). lra. }
        rewrite tan_shift_down, atan_tan; lra.
      * assert (theta < - (PI / 2)).
        { destruct Hout as [H | H]; [ exfalso | exact H ].
          pose proof (sin_ge_0 theta). lra. }
        rewrite tan_shift_up, atan_tan; lra.
    + assert (Hz : cos theta = 0) by lra.
      assert (Hend : theta = PI / 2 \/ theta = - (PI / 2)).
      { destruct (Req_dec theta (PI / 2)) as [E | E]; [ left; exact E | ].
        destruct (Req_dec theta (- (PI / 2))) as [E' | E']; [ right; exact E' | exfalso ].
        destruct (Rlt_dec theta (- (PI / 2))).
        - pose proof (@cos_sign_left theta). lra.
        - destruct (Rlt_dec theta (PI / 2)).
          + pose proof (@cos_sign_mid theta). lra.
          + pose proof (@cos_sign_right theta). lra. }
      destruct Hend as [-> | ->].
      * rewrite sin_PI2. destruct (Rlt_dec 0 1); [ reflexivity | lra ].
      * rewrite sin_neg, sin_PI2.
        destruct (Rlt_dec 0 (- (1))); [ lra | ]. destruct (Rlt_dec (- (1)) 0); [ reflexivity | lra ].
Qed.

(** ** Convolution in terms of covariances *)

Lemma spec_conv_split (A B : Beam) :
  spec_conv_alpha A B = cov_alpha A + cov_alpha B /\
  spec_conv_beta A B = cov_beta A + cov_beta B /\
  spec_conv_gamma A B = cov_gamma A + cov_gamma B.
Proof.
  unfold spec_conv_alpha, spec_conv_beta, spec_conv_gamma, cov_alpha, cov_beta, cov_gamma.
  repeat split; ring.
Qed.

Lemma spec_deconv_split (A B : Beam) :
  spec_deconv_alpha A B = cov_alpha A - cov_alpha B /\
  spec_deconv_beta A B = cov_beta A - cov_beta B /\
  spec_deconv_gamma A B = cov_gamma A - cov_gamma B.
Proof.
  unfold spec_deconv_alpha, spec_deconv_beta, spec_deconv_gamma, cov_alpha, cov_beta, cov_gamma.
  repeat split; ring.
Qed.

Lemma convolve_covariance (A B : Beam) :
  exists C, convolve A B = Ok C /\
    cov_alpha C = cov_alpha A + cov_alpha B /\
    cov_beta C = cov_beta A + cov_beta B /\
    cov_gamma C = cov_gamma A + cov_gamma B.
Proof.
  destruct (convolve_normal A B) as (C & HC & M1 & M2 & M3 & _).
  exists C. split; [ exact HC | ].
  destruct (spec_conv_split A B) as (<- & <- & <-).
  unfold cov_alpha, cov_beta, cov_gamma. rewrite M1, M2, M3.
  apply ellipse_of_covariance. apply convolve_t_le_s.
Qed.

Lemma convolve_by_covariance (A B A' B' : Beam) :
  cov_alpha A + cov_alpha B = cov_alpha A' + cov_alpha B' ->
  cov_beta A + cov_beta B = cov_beta A' + cov_beta B' ->
  cov_gamma A + cov_gamma B = cov_gamma A' + cov_gamma B' ->
  exists C D, convolve A B = Ok C /\ convolve A' B' = Ok D /\
    major_deg C = major_deg D /\ minor_deg C = minor_deg D /\ pa_rad C = pa_rad D.
Proof.
  intros Ha Hb Hg.
  destruct (convolve_normal A B) as (C & HC & C1 & C2 & C3 & _).
  destruct (convolve_normal A' B') as (D & HD & D1 & D2 & D3 & _).
  destruct (spec_conv_split A B) as (Ea & Eb & Eg).
  destruct (spec_conv_split A' B') as (Ea' & Eb' & Eg').
  exists C, D. repeat split; try assumption; congruence.
Qed.

(** X1: [convolve] never raises, and the covariance of the beam it returns is the
    sum of the covariances of the two beams: each of the three terms
    [cov_alpha], [cov_beta] and [cov_gamma] is added. *)
Theorem convolve_adds_covariances (A B : Beam) :
  exists C, convolve A B = Ok C /\
    cov_alpha C = cov_alpha A + cov_alpha B /\
    cov_beta C = cov_beta A + cov_beta B /\
    cov_gamma C = cov_gamma A + cov_gamma B.
Proof. exact (convolve_covariance A B). Qed.

(** X2: in exact arithmetic convolution is associative: convolving three
    beams in either grouping returns, and the two results have the same
    covariance, the sum of the three, and the same axes. *)
Theorem convolve_associative (A B C : Beam) :
  exists AB BC L R',
    convolve A B = Ok AB /\ convolve AB C = Ok L /\
    convolve B C = Ok BC /\ convolve A BC = Ok R' /\
    cov_alpha L = cov_alpha A + cov_alpha B + cov_alpha C /\
    cov_beta L = cov_beta A + cov_beta B + cov_beta C /\
    cov_gamma L = cov_gamma A + cov_gamma B + cov_gamma C /\
    cov_alpha R' = cov_alpha L /\ cov_beta R' = cov_beta L /\ cov_gamma R' = cov_gamma L /\
    major_deg R' = major_deg L /\ minor_deg R' = minor_deg L.
Proof.
  destruct (convolve_covariance A B) as (AB & HAB & a1 & b1 & g1).
  destruct (convolve_covariance B C) as (BC & HBC & a2 & b2 & g2).
  destruct (convolve_covariance AB C) as (L & HL & a3 & b3 & g3).
  destruct (convolve_covariance A BC) as (R' & HR & a4 & b4 & g4).
  destruct (@convolve_by_covariance AB C A BC) as (L' & R'' & HL' & HR' & M1 & M2 & _);
    try lra.
  assert (L' = L) by congruence. assert (R'' = R') by congruence. subst L' R''.
  exists AB, BC, L, R'. repeat split; try assumption; try lra; congruence.
Qed.

(** ** Equality of beams *)

Lemma Reqb_true (x y : R) : Reqb x y = true <-> x = y.
Proof.
  unfold Reqb. destruct (Req_dec_T x y); split; intros; try assumption; try reflexivity;
    try discriminate; contradiction.
Qed.

Lemma Beam_eq_true (C D : Beam) :
  Beam_eq C D = true <->
  major_deg C = major_deg D /\ minor_deg C = minor_deg D /\ pa_rad C = pa_rad D.
Proof.
  unfold Beam_eq, major_deg, minor_deg, pa_rad.
  rewrite (qeq_to_value deg (major C)), (qeq_to_value deg (minor C)),
          (qeq_to_value radian (pa C)).
  split.
  - intros H.
    destruct (Reqb _ _) eqn:E1; [ | discriminate ].
    destruct (Reqb (to_value deg (minor C)) _) eqn:E2; [ | discriminate ].
    destruct (Reqb (to_value radian (pa C)) _) eqn:E3; [ | discriminate ].
    apply Reqb_true in E1, E2, E3. auto.
  - intros (-> & -> & ->). rewrite !Reqb_refl. reflexivity.
Qed.

(** X5: [__eq__] compares parameters, not ellipses: a beam turned by 180 degrees
    has the same covariance, the same ellipse on the sky, and is not equal
    to the beam it was turned from. *)
Theorem Beam_eq_tells_half_turns_apart (x y z : R) :
  cov_alpha (Beam_of_numbers x y (z + 180)) = cov_alpha (Beam_of_numbers x y z) /\
  cov_beta (Beam_of_numbers x y (z + 180)) = cov_beta (Beam_of_numbers x y z) /\
  cov_gamma (Beam_of_numbers x y (z + 180)) = cov_gamma (Beam_of_numbers x y z) /\
  Beam_eq (Beam_of_numbers x y (z + 180)) (Beam_of_numbers x y z) = false.
Proof.
  assert (Hp : pa_rad (Beam_of_numbers x y (z + 180)) = pa_rad (Beam_of_numbers x y z) + PI).
  { unfold pa_rad, Beam_of_numbers, to_value. cbn [pa value unit in_radians pow].
    pose proof PI_RGT_0. field. }
  unfold cov_alpha, cov_beta, cov_gamma.
  rewrite Hp, neg_cos, neg_sin, !major_deg_of_numbers, !minor_deg_of_numbers.
  repeat split; try ring.
  destruct (Beam_eq _ _) eqn:E; [ exfalso | reflexivity ].
  apply Beam_eq_true in E. destruct E as (_ & _ & E). rewrite Hp in E.
  pose proof PI_RGT_0. lra.
Qed.

(** ** Undoing a convolution *)

(** The covariance of one beam: [s] is the sum of the squared axes and [t]
    their difference. *)
Lemma covariance_s_t (A : Beam) :
  spec_s (cov_alpha A) (cov_beta A) = major_deg A ^ 2 + minor_deg A ^ 2 /\
  spec_t (cov_alpha A) (cov_beta A) (cov_gamma A) = Rabs (major_deg A ^ 2 - minor_deg A ^ 2).
Proof.
  unfold spec_s, spec_t, cov_alpha, cov_beta, cov_gamma.
  pose proof (sin2_cos2 (pa_rad A)) as H1. unfold Rsqr in H1.
  set (M := major_deg A). set (m := minor_deg A).
  set (c := cos (pa_rad A)) in *. set (sn := sin (pa_rad A)) in *.
  split.
  - replace ((M * c) ^ 2 + (m * sn) ^ 2 + ((M * sn) ^ 2 + (m * c) ^ 2))
      with ((M ^ 2 + m ^ 2) * (sn * sn + c * c)) by ring.
    rewrite H1. ring.
  - replace (((M * c) ^ 2 + (m * sn) ^ 2 - ((M * sn) ^ 2 + (m * c) ^ 2)) ^ 2
             + (2 * ((m ^ 2 - M ^ 2) * sn * c)) ^ 2)
      with (((M ^ 2 - m ^ 2) * (sn * sn + c * c))²) by (unfold Rsqr; ring).
    rewrite H1, Rmult_1_r. apply sqrt_Rsqr_abs.
Qed.

Lemma covariance_is_feasible (A : Beam) :
  0 <= cov_alpha A /\ 0 <= cov_beta A /\
  spec_t (cov_alpha A) (cov_beta A) (cov_gamma A) <= spec_s (cov_alpha A) (cov_beta A).
Proof.
  destruct (covariance_s_t A) as [-> ->].
  unfold cov_alpha, cov_beta.
  pose proof (pow2_ge_0 (major_deg A * cos (pa_rad A))).
  pose proof (pow2_ge_0 (minor_deg A * sin (pa_rad A))).
  pose proof (pow2_ge_0 (major_deg A * sin (pa_rad A))).
  pose proof (pow2_ge_0 (minor_deg A * cos (pa_rad A))).
  pose proof (pow2_ge_0 (major_deg A)). pose proof (pow2_ge_0 (minor_deg A)).
  repeat split; try lra.
  unfold Rabs. destruct (Rcase_abs _); lra.
Qed.

(** When the check passes, [deconvolve] returns the beam of the formulas,
    whatever the flag. *)
Lemma deconvolve_feasible (A B : Beam) :
  ~ spec_infeasible A B ->
  exists C, (forall f, deconvolve A B f = Ok C) /\
    major_deg C = spec_new_major (spec_deconv_alpha A B) (spec_deconv_beta A B)
                                 (spec_deconv_gamma A B) /\
    minor_deg C = spec_new_minor (spec_deconv_alpha A B) (spec_deconv_beta A B)
                                 (spec_deconv_gamma A B) /\
    pa_rad C = spec_new_pa (spec_deconv_alpha A B) (spec_deconv_beta A B)
                           (spec_deconv_gamma A B).
Proof.
  intros Hn.
  pose proof (deconvolve_cases A B false) as Hf.
  pose proof (deconvolve_cases A B true) as Ht.
  pose proof (infeasible_guard A B) as Hg.
  cbv zeta in *.
  destruct (_ || _ || _).
  - exfalso. apply Hn, Hg. reflexivity.
  - destruct Hf as (C & HC & M1 & M2 & M3 & _).
    destruct Ht as (C' & HC' & _).
    exists C. repeat split; try assumption.
    intros [ | ]; [ | assumption ].
    rewrite HC'. unfold deconvolve in *.
    destruct (_ || _ || _); [ discriminate | congruence ].
Qed.

Lemma deconvolve_convolve (A B : Beam) :
  exists C, convolve A B = Ok C /\
    spec_deconv_alpha C B = cov_alpha A /\
    spec_deconv_beta C B = cov_beta A /\
    spec_deconv_gamma C B = cov_gamma A /\
    exists D, (forall f, deconvolve C B f = Ok D) /\
      cov_alpha D = cov_alpha A /\ cov_beta D = cov_beta A /\ cov_gamma D = cov_gamma A.
Proof.
  destruct (convolve_covariance A B) as (C & HC & a & b & g).
  destruct (spec_deconv_split C B) as (Ea & Eb & Eg).
  assert (Ha : spec_deconv_alpha C B = cov_alpha A) by lra.
  assert (Hb : spec_deconv_beta C B = cov_beta A) by lra.
  assert (Hg : spec_deconv_gamma C B = cov_gamma A) by lra.
  destruct (covariance_is_feasible A) as (P1 & P2 & P3).
  assert (Hf : ~ spec_infeasible C B).
  { unfold spec_infeasible. rewrite Ha, Hb, Hg. lra. }
  destruct (deconvolve_feasible Hf) as (D & HD & M1 & M2 & M3).
  rewrite Ha, Hb, Hg in M1, M2, M3.
  exists C. repeat split; try assumption.
  exists D. split; [ exact HD | ].
  destruct (@ellipse_of_covariance _ _ _ P3) as (E1 & E2 & E3).
  unfold cov_alpha at 1, cov_beta at 1, cov_gamma at 1. rewrite M1, M2, M3.
  repeat split; assumption.
Qed.

(** X7: in exact arithmetic deconvolution undoes convolution: the three sums
    that [deconvolve] forms from the convolution of [A] with [B] and from [B]
    are the covariance of [A], and a beam it returns past its check has the
    covariance of [A]. *)
Theorem deconvolve_undoes_convolve (A B : Beam) :
  exists C, convolve A B = Ok C /\
    spec_deconv_alpha C B = cov_alpha A /\
    spec_deconv_beta C B = cov_beta A /\
    spec_deconv_gamma C B = cov_gamma A /\
    (forall D, deconvolve C B false = Ok D ->
       cov_alpha D = cov_alpha A /\ cov_beta D = cov_beta A /\ cov_gamma D = cov_gamma A).
Proof.
  destruct (deconvolve_convolve A B) as (C & HC & Ha & Hb & Hg & D & HD & K).
  exists C.
  split; [ exact HC | split; [ exact Ha | split; [ exact Hb | split; [ exact Hg | ] ] ] ].
  intros D' HD'. rewrite (HD false) in HD'. injection HD' as <-. exact K.
Qed.

(** [Beam(2, 1, 30)] convolved with [Beam(1, 1, 0)], then deconvolved. *)
Lemma deconvolve_undoes_convolve_witness :
  exists C D,
    convolve (Beam_of_numbers 2 1 30) (Beam_of_numbers 1 1 0) = Ok C /\
    deconvolve C (Beam_of_numbers 1 1 0) false = Ok D /\
    cov_alpha D = cov_alpha (Beam_of_numbers 2 1 30) /\
    cov_beta D = cov_beta (Beam_of_numbers 2 1 30) /\
    cov_gamma D = cov_gamma (Beam_of_numbers 2 1 30).
Proof.
  destruct (deconvolve_undoes_convolve (Beam_of_numbers 2 1 30) (Beam_of_numbers 1 1 0))
    as (C & HC & _ & _ & _ & K).
  destruct (deconvolve_convolve (Beam_of_numbers 2 1 30) (Beam_of_numbers 1 1 0))
    as (C' & HC' & _ & _ & _ & D & HD & _).
  assert (C' = C) by congruence. subst C'.
  exists C, D. split; [ exact HC | split; [ apply HD | apply K, HD ] ].
Defined.

(** ** Circular beams *)

Lemma covariance_of_circular (a p : R) :
  cov_alpha (Beam_of_numbers a a p) = a ^ 2 /\
  cov_beta (Beam_of_numbers a a p) = a ^ 2 /\
  cov_gamma (Beam_of_numbers a a p) = 0.
Proof.
  unfold cov_alpha, cov_beta, cov_gamma.
  rewrite major_deg_of_numbers, minor_deg_of_numbers.
  pose proof (sin2_cos2 (pa_rad (Beam_of_numbers a a p))) as H1. unfold Rsqr in H1.
  set (c := cos _) in *. set (sn := sin _) in *.
  repeat split.
  - replace ((a * c) ^ 2 + (a * sn) ^ 2) with (a ^ 2 * (sn * sn + c * c)) by ring.
    rewrite H1. ring.
  - replace ((a * sn) ^ 2 + (a * c) ^ 2) with (a ^ 2 * (sn * sn + c * c)) by ring.
    rewrite H1. ring.
  - ring.
Qed.

Lemma circular_formulas (r : R) :
  0 <= r ->
  spec_new_major r r 0 = sqrt r /\ spec_new_minor r r 0 = sqrt r /\
  spec_new_pa r r 0 = 0 /\ spec_new_pa_unit r r 0 = deg.
Proof.
  intros Hr.
  assert (Ht : spec_t r r 0 = 0).
  { unfold spec_t. replace ((r - r) ^ 2 + 0 ^ 2) with 0 by ring. apply sqrt_0. }
  unfold spec_new_major, spec_new_minor, spec_new_pa, spec_new_pa_unit, spec_s. rewrite Ht.
  replace (0.5 * (r + r + 0)) with r by lra. replace (0.5 * (r + r - 0)) with r by lra.
  destruct (Req_dec_T (Rabs 0 + Rabs (r - r)) 0) as [_ | Hn]; [ auto | ].
  exfalso. apply Hn. replace (r - r) with 0 by ring. rewrite Rabs_R0. ring.
Qed.

(** X10: in exact arithmetic circular beams add in quadrature: two circular
    beams of widths [a] and [b] degrees convolve to a beam whose axes are both
    [sqrt (a^2 + b^2)] degrees, whatever their position angles. *)
Theorem convolve_circular (a b p q : R) :
  exists C, convolve (Beam_of_numbers a a p) (Beam_of_numbers b b q) = Ok C /\
    major_deg C = sqrt (a ^ 2 + b ^ 2) /\ minor_deg C = sqrt (a ^ 2 + b ^ 2).
Proof.
  destruct (convolve_normal (Beam_of_numbers a a p) (Beam_of_numbers b b q))
    as (C & HC & M1 & M2 & _).
  destruct (spec_conv_split (Beam_of_numbers a a p) (Beam_of_numbers b b q)) as (Ea & Eb & Eg).
  destruct (covariance_of_circular a p) as (A1 & A2 & A3).
  destruct (covariance_of_circular b q) as (B1 & B2 & B3).
  rewrite A1, B1 in Ea. rewrite A2, B2 in Eb. rewrite A3, B3, Rplus_0_r in Eg.
  rewrite Ea, Eb, Eg in *.
  assert (Hr : 0 <= a ^ 2 + b ^ 2).
  { pose proof (pow2_ge_0 a). pose proof (pow2_ge_0 b). lra. }
  destruct (circular_formulas Hr) as (F1 & F2 & _).
  exists C. split; [ exact HC | split; congruence ].
Qed.

(** ** A header without HISTORY *)

(** X23: a header with no [BMAJ] card and no HISTORY card at all does not
    reach the [TypeError] of the missing beam: looking up its HISTORY raises
    a [KeyError]. *)
Theorem no_HISTORY_raises_KeyError (getheader : string -> result Header)
    (cs : list (string * R)) :
  lookup "BMAJ" cs = None ->
  exists e, from_fits_header getheader (PyHeader (mkHeader cs [])) = Raise e /\
            class_of e = KeyError_class /\ e <> no_BMAJ_found.
Proof.
  intros Hkey. unfold from_fits_header. cbn [bind cards]. rewrite Hkey.
  eexists. split; [ reflexivity | ]. split; [ reflexivity | discriminate ].
Qed.

Lemma no_HISTORY_raises_KeyError_witness :
  exists e, from_fits_header no_file (PyHeader empty_header) = Raise e /\
            class_of e = KeyError_class /\ e <> no_BMAJ_found.
Proof. apply (@no_HISTORY_raises_KeyError no_file []). reflexivity. Defined.

(** ** Keyword mode *)

(** X15: a header with a BMAJ card is read from its cards alone: BMIN defaults to
    BMAJ, BPA to 0, the HISTORY is not looked at and nothing is raised,
    whatever the HISTORY holds. *)
Theorem keyword_mode_ignores_history (getheader : string -> result Header)
    (cs : list (string * R)) (lines : list string) (bmaj : R) :
  lookup "BMAJ" cs = Some bmaj ->
  from_fits_header getheader (PyHeader (mkHeader cs lines))
  = Ok (mkBeam (mkQ 1 bmaj deg)
               (match lookup "BMIN" cs with Some v => mkQ 1 v deg | None => mkQ 1 bmaj deg end)
               (match lookup "BPA" cs with Some v => mkQ 1 v deg | None => mkQ 1 0 deg end)).
Proof.
  intros H. unfold from_fits_header. cbn [bind cards]. rewrite H.
  destruct (lookup "BMIN" cs), (lookup "BPA" cs); reflexivity.
Qed.

Lemma keyword_mode_ignores_history_witness :
  from_fits_header no_file (PyHeader (mkHeader [("BMAJ"%string, 2)] [aips_line]))
  = Ok (mkBeam (mkQ 1 2 deg) (mkQ 1 2 deg) (mkQ 1 0 deg)).
Proof.
  apply (@keyword_mode_ignores_history no_file [("BMAJ"%string, 2)] [aips_line] 2).
  reflexivity.
Defined.

(** ** Attaching a beam to a header *)

Lemma set_card_present key v cs : lookup key cs = Some v -> set_card key v cs = cs.
Proof.
  induction cs as [ | [k v'] cs IH]; simpl.
  - discriminate.
  - destruct (String.eqb k key) eqn:E.
    + apply String.eqb_eq in E. subst k. intros H. injection H as ->. reflexivity.
    + intros H. rewrite (IH H). reflexivity.
Qed.

(** X16: [attach_to_header] changes the cards BMAJ, BMIN and BPA only: every other
    card and the HISTORY are as they were, and attaching the same beam a
    second time changes nothing. *)
Theorem attach_to_header_frame (self : Beam) (header : Header) (copy copy' : bool) :
  (forall key, key <> "BMAJ"%string -> key <> "BMIN"%string -> key <> "BPA"%string ->
     lookup key (cards (attach_to_header self header copy)) = lookup key (cards header)) /\
  history (attach_to_header self header copy) = history header /\
  attach_to_header self (attach_to_header self header copy) copy'
  = attach_to_header self header copy.
Proof.
  split; [ | split ].
  - intros key H1 H2 H3. unfold attach_to_header, update, to_header_keywords.
    cbn [fold_left fst snd cards]. rewrite !lookup_set_other by assumption. reflexivity.
  - reflexivity.
  - destruct (attached_keywords self header copy) as (K1 & K2 & K3 & K4).
    cbv zeta in *.
    destruct (attach_to_header self header copy) as [cs hist] eqn:E.
    cbn [cards history] in *.
    unfold attach_to_header, update, to_header_keywords. cbn [fold_left fst snd cards history].
    rewrite (set_card_present _ _ K1), (set_card_present _ _ K2), (set_card_present _ _ K3).
    reflexivity.
Qed.

(** ** A damaged AIPS line *)

Lemma nth_error_short {A : Type} (l : list A) (i : nat) :
  (List.length l <= i)%nat -> nth_error l i = None.
Proof. apply nth_error_None. Qed.

(** X17: in a header without a BMAJ card only the last HISTORY line that mentions
    BMAJ is tried: when it has fewer than eight words the call raises an
    IndexError or a ValueError, even if an earlier line is well formed. *)
Theorem short_AIPS_line_raises (getheader : string -> result Header)
    (cs : list (string * R)) (pre post : list string) (line : string) :
  lookup "BMAJ" cs = None ->
  contains "BMAJ" line = true ->
  (forall l, In l post -> contains "BMAJ" l = false) ->
  (List.length (split line) < 8)%nat ->
  exists e, from_fits_header getheader (PyHeader (mkHeader cs (pre ++ line :: post))) = Raise e /\
            (class_of e = IndexError_class \/ class_of e = ValueError_class).
Proof.
  intros Hkey Hline Hpost Hlen.
  unfold from_fits_header. cbn [bind cards]. rewrite Hkey.
  unfold from_aips_header.
  rewrite (@history_cards_some (mkHeader cs (pre ++ line :: post)) pre post line eq_refl).
  cbn [bind]. rewrite (@last_BMAJ_line_last pre post line Hline Hpost).
  assert (H7 : nth_error (split line) 7 = None) by (apply nth_error_None; lia).
  unfold float_token at 3. rewrite H7.
  unfold float_token, py_float.
  destruct (nth_error (split line) 3) as [t3 | ]; [ | eexists; split; [ reflexivity | left; reflexivity ] ].
  destruct (float_of_chars (list_ascii_of_string t3));
    [ | eexists; split; [ reflexivity | right; reflexivity ] ].
  destruct (nth_error (split line) 5) as [t5 | ]; [ | eexists; split; [ reflexivity | left; reflexivity ] ].
  destruct (float_of_chars (list_ascii_of_string t5));
    [ | eexists; split; [ reflexivity | right; reflexivity ] ].
  eexists; split; [ reflexivity | left; reflexivity ].
Qed.

Lemma short_AIPS_line_raises_witness :
  exists e,
    from_fits_header no_file
      (PyHeader (mkHeader [] ([aips_line] ++ "AIPS CLEAN BMAJ= 1.0E-03"%string :: [])))
    = Raise e /\
    (class_of e = IndexError_class \/ class_of e = ValueError_class).
Proof.
  apply (@short_AIPS_line_raises no_file [] [aips_line] [] "AIPS CLEAN BMAJ= 1.0E-03"%string).
  - reflexivity.
  - vm_compute. reflexivity.
  - intros l [].
  - vm_compute. lia.
Defined.

(** ** File names *)

Open Scope string_scope.

Lemma lower_append (s t : string) : lower (s ++ t) = lower s ++ lower t.
Proof. induction s as [ | c s IH]; simpl; [ reflexivity | rewrite IH; reflexivity ]. Qed.

Lemma endswith_cons (e : string) (c : ascii) (s : string) :
  endswith e (String c s) = String.eqb e (String c s) || endswith e s.
Proof. reflexivity. Qed.

Lemma length_append (s t : string) :
  String.length (s ++ t) = (String.length s + String.length t)%nat.
Proof. induction s as [ | c s IH]; simpl; [ reflexivity | rewrite IH; reflexivity ]. Qed.

Lemma append_assoc (s t u : string) : (s ++ t) ++ u = s ++ (t ++ u).
Proof. induction s as [ | c s IH]; simpl; [ reflexivity | rewrite IH; reflexivity ]. Qed.

(** Two ways of cutting a string at the same distance from its end agree. *)
Lemma append_inj_r (s1 s2 t1 t2 : string) :
  String.length t1 = String.length t2 -> s1 ++ t1 = s2 ++ t2 -> s1 = s2 /\ t1 = t2.
Proof.
  intros Hlen. revert s2. induction s1 as [ | c s1 IH]; intros [ | c2 s2] H; simpl in H.
  - split; [ reflexivity | exact H ].
  - exfalso. rewrite H in Hlen. simpl in Hlen. rewrite length_append in Hlen. lia.
  - exfalso. rewrite <- H in Hlen. simpl in Hlen. rewrite length_append in Hlen. lia.
  - injection H as -> H. destruct (IH _ H) as [-> ->]. split; reflexivity.
Qed.

Lemma endswith_true (e s : string) : endswith e s = true -> exists p, s = p ++ e.
Proof.
  induction s as [ | c s IH].
  - simpl. rewrite orb_false_r. intros H. apply String.eqb_eq in H. subst. exists "". reflexivity.
  - rewrite endswith_cons. intros H. apply orb_true_iff in H. destruct H as [H | H].
    + apply String.eqb_eq in H. subst. exists "". reflexivity.
    + destruct (IH H) as [p ->]. exists (String c p). reflexivity.
Qed.

Lemma endswith_itself (e s : string) : endswith e (s ++ e) = true.
Proof.
  induction s as [ | c s IH].
  - destruct e; simpl; rewrite ?Ascii.eqb_refl, ?String.eqb_refl; reflexivity.
  - change (String c s ++ e) with (String c (s ++ e)).
    rewrite endswith_cons, IH. apply orb_true_r.
Qed.

(** No extension of the list ends in [.z]. *)
Lemma no_extension_in_dot_z (s : string) : endswith_any fits_extensions (s ++ ".z") = false.
Proof.
  assert (H : forall e0 e2, String.length e2 = 2%nat -> e2 <> ".z" ->
                            endswith (e0 ++ e2) (s ++ ".z") = false).
  { intros e0 e2 Hlen Hne. destruct (endswith _ _) eqn:E; [ exfalso | reflexivity ].
    apply endswith_true in E. destruct E as [p E].
    rewrite <- append_assoc in E.
    apply append_inj_r in E; [ | rewrite Hlen; reflexivity ].
    destruct E as [_ E]. congruence. }
  unfold endswith_any, fits_extensions. cbn [existsb].
  pose proof (H ".fi" "ts" eq_refl ltac:(discriminate)) as H1.
  pose proof (H ".fits." "gz" eq_refl ltac:(discriminate)) as H2.
  pose proof (H ".f" "it" eq_refl ltac:(discriminate)) as H3.
  pose proof (H ".fit." "gz" eq_refl ltac:(discriminate)) as H4.
  pose proof (H ".fits" ".Z" eq_refl ltac:(discriminate)) as H5.
  pose proof (H ".fit" ".Z" eq_refl ltac:(discriminate)) as H6.
  cbn [append] in H1, H2, H3, H4, H5, H6.
  rewrite H1, H2, H3, H4, H5, H6. reflexivity.
Qed.

Lemma compressed_is_not_recognized (name tail : string) :
  tail = ".Z" \/ tail = ".z" ->
  endswith_any fits_extensions (lower (name ++ tail)) = false.
Proof.
  intros Ht. rewrite lower_append.
  replace (lower tail) with ".z" by (destruct Ht as [-> | ->]; reflexivity).
  apply no_extension_in_dot_z.
Qed.

Close Scope string_scope.

(** X18: a file name that ends in [.Z], the [.fits.Z] and [.fit.Z] of the list of
    extensions among them, is refused as an unrecognized extension and the
    file is not opened: the names are lowered before the comparison and the
    list spells them with a capital. *)
Theorem compressed_extension_is_refused (getheader : string -> result Header) (name : string) :
  from_fits_header getheader (PyStr (name ++ ".Z")) = Raise unrecognized_extension /\
  from_fits_header getheader (PyStr (name ++ ".fits.Z")) = Raise unrecognized_extension /\
  from_fits_header getheader (PyStr (name ++ ".fit.Z")) = Raise unrecognized_extension.
Proof.
  unfold from_fits_header.
  rewrite (@compressed_is_not_recognized name ".Z") by auto.
  replace (name ++ ".fits.Z")%string with ((name ++ ".fits") ++ ".Z")%string
    by apply append_assoc.
  replace (name ++ ".fit.Z")%string with ((name ++ ".fit") ++ ".Z")%string
    by apply append_assoc.
  rewrite !(@compressed_is_not_recognized _ ".Z") by auto.
  repeat split; reflexivity.
Qed.

(** X19: a file name that ends in [.fits], [.fits.gz], [.fit] or [.fit.gz], in any
    mix of cases, is opened and what the file holds is parsed as a header. *)
Theorem fits_file_is_read (getheader : string -> result Header) (name ext : string) :
  In (lower ext) [".fits"; ".fits.gz"; ".fit"; ".fit.gz"]%string ->
  from_fits_header getheader (PyStr (name ++ ext))
  = (hdr <- getheader (name ++ ext)%string ;; from_fits_header getheader (PyHeader hdr)).
Proof.
  intros Hext.
  assert (Hrec : endswith_any fits_extensions (lower (name ++ ext)) = true).
  { rewrite lower_append. unfold endswith_any, fits_extensions. cbn [existsb].
    cbn [In] in Hext.
    destruct Hext as [E | [E | [E | [E | []]]]]; rewrite <- E;
      rewrite endswith_itself, ?orb_true_r; reflexivity. }
  unfold from_fits_header. rewrite Hrec.
  destruct (getheader (name ++ ext)%string); reflexivity.
Qed.

Lemma fits_file_is_read_witness :
  from_fits_header no_file (PyStr ("Image" ++ ".FITS"))
  = (hdr <- no_file ("Image" ++ ".FITS")%string ;; from_fits_header no_file (PyHeader hdr)).
Proof.
  apply (@fits_file_is_read no_file "Image" ".FITS").
  left. reflexivity.
Defined.

Close Scope string_scope.

(** ** The box around an ellipse *)

Lemma Rabs_of_square_root (d n : R) : d * d = n -> Rabs d = sqrt n.
Proof. intros <-. rewrite <- sqrt_Rsqr_abs. reflexivity. Qed.

Lemma ellipse_extent_dx (a b theta : R) :
  a <> 0 -> cos theta <> 0 ->
  fst (ellipse_extent a b theta) = sqrt ((a * cos theta) ^ 2 + (b * sin theta) ^ 2).
Proof.
  intros Ha Hc. unfold ellipse_extent. cbn [fst].
  apply Rabs_of_square_root.
  destruct (@cos_sin_atan2 (- b * tan theta) a (or_introl Ha)) as [Ec Es].
  rewrite Ec, Es.
  assert (Hr : 0 < sqrt (a ^ 2 + (- b * tan theta) ^ 2)) by (apply norm_pos; left; exact Ha).
  assert (Hrr : sqrt (a ^ 2 + (- b * tan theta) ^ 2) * sqrt (a ^ 2 + (- b * tan theta) ^ 2)
                = a ^ 2 + (- b * tan theta) ^ 2).
  { apply sqrt_sqrt. pose proof (pow2_ge_0 a). pose proof (pow2_ge_0 (- b * tan theta)). lra. }
  set (r := sqrt (a ^ 2 + (- b * tan theta) ^ 2)) in *.
  unfold tan in *. set (c := cos theta) in *. set (s := sin theta) in *.
  assert (Hn : 0 < (a * c) ^ 2 + (b * s) ^ 2).
  { assert (0 < (a * c) ^ 2).
    { replace ((a * c) ^ 2) with ((a * c)²) by (unfold Rsqr; ring).
      apply Rlt_0_sqr, Rmult_integral_contrapositive_currified; assumption. }
    pose proof (pow2_ge_0 (b * s)). lra. }
  assert (Hrc : (r * c) * (r * c) = (a * c) ^ 2 + (b * s) ^ 2).
  { replace (r * c * (r * c)) with (r * r * (c * c)) by ring. rewrite Hrr. field. exact Hc. }
  replace ((a * (a / r) * c - b * (- b * (s / c) / r) * s)
           * (a * (a / r) * c - b * (- b * (s / c) / r) * s))
    with ((((a * c) ^ 2 + (b * s) ^ 2) * ((a * c) ^ 2 + (b * s) ^ 2)) / (r * c * (r * c)))
    by (field; split; lra).
  rewrite Hrc. field. lra.
Qed.

Lemma ellipse_extent_dy (a b theta : R) :
  b <> 0 -> cos theta <> 0 ->
  snd (ellipse_extent a b theta) = sqrt ((a * sin theta) ^ 2 + (b * cos theta) ^ 2).
Proof.
  intros Hb Hc. unfold ellipse_extent. cbn [snd].
  apply Rabs_of_square_root.
  destruct (@cos_sin_atan2 b (a * tan theta) (or_intror Hb)) as [Ec Es].
  rewrite Ec, Es.
  assert (Hr : 0 < sqrt ((a * tan theta) ^ 2 + b ^ 2)) by (apply norm_pos; right; exact Hb).
  assert (Hrr : sqrt ((a * tan theta) ^ 2 + b ^ 2) * sqrt ((a * tan theta) ^ 2 + b ^ 2)
                = (a * tan theta) ^ 2 + b ^ 2).
  { apply sqrt_sqrt. pose proof (pow2_ge_0 b). pose proof (pow2_ge_0 (a * tan theta)). lra. }
  set (r := sqrt ((a * tan theta) ^ 2 + b ^ 2)) in *.
  unfold tan in *. set (c := cos theta) in *. set (s := sin theta) in *.
  assert (Hn : 0 < (a * s) ^ 2 + (b * c) ^ 2).
  { assert (0 < (b * c) ^ 2).
    { replace ((b * c) ^ 2) with ((b * c)²) by (unfold Rsqr; ring).
      apply Rlt_0_sqr, Rmult_integral_contrapositive_currified; assumption. }
    pose proof (pow2_ge_0 (a * s)). lra. }
  assert (Hrc : (r * c) * (r * c) = (a * s) ^ 2 + (b * c) ^ 2).
  { replace (r * c * (r * c)) with (r * r * (c * c)) by ring. rewrite Hrr. field. exact Hc. }
  replace ((b * (b / r) * c + a * (a * (s / c) / r) * s)
           * (b * (b / r) * c + a * (a * (s / c) / r) * s))
    with ((((a * s) ^ 2 + (b * c) ^ 2) * ((a * s) ^ 2 + (b * c) ^ 2)) / (r * c * (r * c)))
    by (field; split; lra).
  rewrite Hrc. field. lra.
Qed.

Lemma cauchy_2 (x y u v : R) : (x * u + y * v) ^ 2 <= (x ^ 2 + y ^ 2) * (u ^ 2 + v ^ 2).
Proof. pose proof (pow2_ge_0 (x * v - y * u)). nra. Qed.

Lemma Rabs_le_sqrt (d n : R) : d ^ 2 <= n -> Rabs d <= sqrt n.
Proof.
  intros H. rewrite <- sqrt_Rsqr_abs. apply sqrt_le_1_alt. unfold Rsqr. lra.
Qed.

(** X20: [ellipse_extent] returns the half width and half height of the box around
    the rotated ellipse: they are [sqrt ((a cos theta)^2 + (b sin theta)^2)]
    and [sqrt ((a sin theta)^2 + (b cos theta)^2)], and no point of the
    ellipse lies further from the centre along either axis. *)
Theorem ellipse_extent_is_the_bounding_box (a b theta : R) :
  a <> 0 -> b <> 0 -> cos theta <> 0 ->
  ellipse_extent a b theta
  = (sqrt ((a * cos theta) ^ 2 + (b * sin theta) ^ 2),
     sqrt ((a * sin theta) ^ 2 + (b * cos theta) ^ 2)) /\
  (forall t,
     Rabs (a * cos t * cos theta - b * sin t * sin theta) <= fst (ellipse_extent a b theta) /\
     Rabs (a * cos t * sin theta + b * sin t * cos theta) <= snd (ellipse_extent a b theta)).
Proof.
  intros Ha Hb Hc.
  pose proof (@ellipse_extent_dx a b theta Ha Hc) as Hx.
  pose proof (@ellipse_extent_dy a b theta Hb Hc) as Hy.
  split.
  - rewrite (surjective_pairing (ellipse_extent a b theta)), Hx, Hy. reflexivity.
  - intros t. rewrite Hx, Hy.
    pose proof (sin2_cos2 t) as H1. unfold Rsqr in H1.
    split; apply Rabs_le_sqrt.
    + pose proof (cauchy_2 (a * cos theta) (- (b * sin theta)) (cos t) (sin t)). nra.
    + pose proof (cauchy_2 (a * sin theta) (b * cos theta) (cos t) (sin t)). nra.
Qed.

Lemma ellipse_extent_is_the_bounding_box_witness :
  ellipse_extent 2 1 0
  = (sqrt ((2 * cos 0) ^ 2 + (1 * sin 0) ^ 2), sqrt ((2 * sin 0) ^ 2 + (1 * cos 0) ^ 2)) /\
  (forall t,
     Rabs (2 * cos t * cos 0 - 1 * sin t * sin 0) <= fst (ellipse_extent 2 1 0) /\
     Rabs (2 * cos t * sin 0 + 1 * sin t * cos 0) <= snd (ellipse_extent 2 1 0)).
Proof.
  apply (@ellipse_extent_is_the_bounding_box 2 1 0); try lra.
  rewrite cos_0. lra.
Defined.

(** ** The top-hat kernel *)

Lemma sqrt2_sqr : sqrt 2 * sqrt 2 = 2.
Proof. apply sqrt_sqrt. lra. Qed.

(** X22: the top-hat kernel of a beam is the ellipse whose radii are [sqrt 2]
    times the standard deviations of the Gaussian of that beam, the axes
    divided by [pixscale * SIGMA_TO_FWHM]; the area of the ellipse is the
    area [2 pi sigma_maj sigma_min] of that Gaussian, as the docstring says,
    and amplitude times area is 1. *)
Theorem tophat_area_matches_Gaussian
    (discretize_ellipse : Ellipse2D -> Z -> list (list R))
    (self : Beam) (pixscale support_scaling : R) :
  pixscale <> 0 -> major_deg self <> 0 -> minor_deg self <> 0 ->
  exists tophat,
    as_tophat_kernel discretize_ellipse self pixscale support_scaling = Ok tophat /\
    e_a (_tophat_model tophat) = sqrt 2 * (major_deg self / (pixscale * SIGMA_TO_FWHM)) /\
    e_b (_tophat_model tophat) = sqrt 2 * (minor_deg self / (pixscale * SIGMA_TO_FWHM)) /\
    PI * e_a (_tophat_model tophat) * e_b (_tophat_model tophat)
    = 2 * PI * (major_deg self / (pixscale * SIGMA_TO_FWHM))
             * (minor_deg self / (pixscale * SIGMA_TO_FWHM)) /\
    e_amplitude (_tophat_model tophat)
    * (PI * e_a (_tophat_model tophat) * e_b (_tophat_model tophat)) = 1.
Proof.
  intros Hp HM Hm.
  unfold as_tophat_kernel, EllipticalTophat2DKernel, py_div. cbv zeta.
  fold (major_deg self) (minor_deg self) (pa_rad self).
  pose proof SIGMA_TO_FWHM_gt_2 as HS. pose proof PI_RGT_0 as Hpi. pose proof sqrt2_sqr as H2.
  assert (Hs2 : 0 < sqrt 2) by (apply sqrt_lt_R0; lra).
  set (sM := major_deg self / (pixscale * SIGMA_TO_FWHM)).
  set (sm := minor_deg self / (pixscale * SIGMA_TO_FWHM)).
  assert (EM : sqrt 2 * major_deg self / (pixscale * SIGMA_TO_FWHM) = sqrt 2 * sM)
    by (unfold sM; field; split; lra).
  assert (Em : sqrt 2 * minor_deg self / (pixscale * SIGMA_TO_FWHM) = sqrt 2 * sm)
    by (unfold sm; field; split; lra).
  assert (Hnz : pixscale * SIGMA_TO_FWHM <> 0).
  { apply Rmult_integral_contrapositive_currified; lra. }
  assert (HsM : sM <> 0).
  { unfold sM. apply Rmult_integral_contrapositive_currified; [ exact HM | ].
    apply Rinv_neq_0_compat. exact Hnz. }
  assert (Hsm : sm <> 0).
  { unfold sm. apply Rmult_integral_contrapositive_currified; [ exact Hm | ].
    apply Rinv_neq_0_compat. exact Hnz. }
  rewrite EM, Em.
  assert (Harea : PI * (sqrt 2 * sM) * (sqrt 2 * sm) = 2 * PI * sM * sm).
  { replace (PI * (sqrt 2 * sM) * (sqrt 2 * sm)) with (sqrt 2 * sqrt 2 * (PI * sM * sm)) by ring.
    rewrite H2. ring. }
  assert (Hne : PI * (sqrt 2 * sM) * (sqrt 2 * sm) <> 0).
  { rewrite Harea.
    apply Rmult_integral_contrapositive_currified; [ | exact Hsm ].
    apply Rmult_integral_contrapositive_currified; [ lra | exact HsM ]. }
  destruct (Req_dec_T _ 0) as [E | _]; [ contradiction | ].
  cbn [bind]. eexists. split; [ reflexivity | ].
  cbn [_tophat_model e_a e_b e_amplitude].
  split; [ reflexivity | split; [ reflexivity | split; [ exact Harea | ] ] ].
  field. repeat split; lra.
Qed.

(** [Beam(2, 1, 0)] on pixels of one degree. *)
Lemma tophat_area_matches_Gaussian_witness :
  exists tophat,
    as_tophat_kernel (fun _ _ => []) (Beam_of_numbers 2 1 0) 1 1 = Ok tophat /\
    e_amplitude (_tophat_model tophat)
    * (PI * e_a (_tophat_model tophat) * e_b (_tophat_model tophat)) = 1.
Proof.
  destruct (@tophat_area_matches_Gaussian (fun _ _ => []) (Beam_of_numbers 2 1 0) 1 1)
    as (tophat & H1 & _ & _ & _ & H2).
  - lra.
  - rewrite major_deg_of_numbers. lra.
  - rewrite minor_deg_of_numbers. lra.
  - exists tophat. split; assumption.
Defined.
